(** * Scan session of the code-overlay screen (src/App.tsx)

    A shallow embedding of the [App] component: the coordinate mapping that
    [onCodeScanned] applies to every detected code, the React state it
    updates ([isScanning], [boxes], [uniqueCodes], [timerRef]) and the
    timeouts of the JavaScript runtime that it schedules and cancels.

    JavaScript numbers are IEEE 754 binary64 values; they are embedded as
    Rocq's primitive floats, whose [*], [/] and [-] are the same
    round-to-nearest operations. *)

From Stdlib Require Import Floats Ascii.
From stdpp Require Import gmap strings list pretty.

Abbreviation number := float.

(** ** Data model *)

(** [code.value] is [string | undefined] in the scanner's typings and is
    tested against both [undefined] and [null] by the handler. *)
Inductive CodeValue : Type :=
  | Undefined
  | Null
  | Str (s : string).

#[global] Instance CodeValue_eq_dec : EqDecision CodeValue.
Proof. solve_decision. Defined.

Module Point.
Record t : Type := mk { x : number; y : number }.
End Point.

Module Rect.
Record t : Type := mk { x : number; y : number; width : number; height : number }.
End Rect.

(** The [frame] argument of [onCodeScanned]. *)
Module Frame.
Record t : Type := mk { width : number; height : number }.
End Frame.

(** One element of the [codes] argument. *)
Module Code.
Record t : Type := mk {
  value : CodeValue;
  frame : Rect.t;
  corners : list Point.t
}.
End Code.

(** One element of the [boxes] state; [corners] is a plain JS object used as
    a map from property names to numbers. *)
Module Box.
Record t : Type := mk {
  x : number;
  y : number;
  width : number;
  height : number;
  corners : gmap string number
}.
End Box.

(** One element of the [uniqueCodes] state. *)
Module Entry.
Record t : Type := mk { value : CodeValue; scanTime : number }.
End Entry.

(** ** Array helpers *)

(** [arr.reduce((acc, item, index) => ..., init)]: a left fold that also
    passes the position, counted from [index]. *)
Fixpoint reduce_from {A B : Type} (f : B -> A -> nat -> B)
    (acc : B) (index : nat) (arr : list A) : B :=
  match arr with
  | [] => acc
  | item :: rest => reduce_from f (f acc item index) (S index) rest
  end.

Definition reduce {A B : Type} (f : B -> A -> nat -> B) (arr : list A) (init : B) : B :=
  reduce_from f init 0 arr.

(** The template literal [`point${index + 1}x`] (and [...y]). *)
Definition pointKey (index : nat) (axis : string) : string :=
  "point" +:+ pretty (index + 1) +:+ axis.

(** ** Reading the clock

    [Date.now()] is called once before the codes are mapped and once for
    every code.  A handler invocation is run against an oracle [now] that
    gives the result of its k-th call; the monad threads k. *)
Module Clock.
Definition M (A : Type) : Type := (nat -> number) -> nat -> A * nat.

Definition ret {A : Type} (a : A) : M A := fun _ k => (a, k).

Definition bind {A B : Type} (m : M A) (f : A -> M B) : M B :=
  fun now k => let (a, k') := m now k in f a now k'.

Definition Date_now : M number := fun now k => (now k, S k).

(** [arr.map(f)] for a callback that reads the clock. *)
Fixpoint mapM {A B : Type} (f : A -> M B) (arr : list A) : M (list B) :=
  match arr with
  | [] => ret []
  | a :: rest =>
      bind (f a) (fun b => bind (mapM f rest) (fun bs => ret (b :: bs)))
  end.

Definition run {A : Type} (m : M A) (now : nat -> number) : A := fst (m now 0).
End Clock.

Notation "x <- m ;; k" := (Clock.bind m (fun x => k))
  (at level 100, m at next level, right associativity).

(** ** Component state and the runtime's timeouts

    [timers] is the runtime's table of live timeouts (handle and due time in
    milliseconds of event-loop time); every timeout of this component has
    the same callback, [clearCallback].  Handles are positive, hence truthy.
    [fired] logs the handles whose callback has run. *)
Record World : Type := mkWorld {
  isScanning : bool;
  boxes : list Box.t;
  uniqueCodes : list Entry.t;
  timerRef : option positive;
  timers : list (positive * nat);
  nextHandle : positive;
  time : nat;
  fired : list positive
}.

Definition setIsScanning (b : bool) (w : World) : World :=
  mkWorld b (boxes w) (uniqueCodes w) (timerRef w)
          (timers w) (nextHandle w) (time w) (fired w).

Definition setBoxes (bs : list Box.t) (w : World) : World :=
  mkWorld (isScanning w) bs (uniqueCodes w) (timerRef w)
          (timers w) (nextHandle w) (time w) (fired w).

Definition setUniqueCodes (es : list Entry.t) (w : World) : World :=
  mkWorld (isScanning w) (boxes w) es (timerRef w)
          (timers w) (nextHandle w) (time w) (fired w).

(** [clearTimeout(h)]: the timeout is removed from the table; a handle that
    is not live is ignored. *)
Definition clearTimeout (h : positive) (w : World) : World :=
  mkWorld (isScanning w) (boxes w) (uniqueCodes w) (timerRef w)
          (List.filter (fun t => negb (Pos.eqb (fst t) h)) (timers w))
          (nextHandle w) (time w) (fired w).

(** [timerRef.current = setTimeout(clearCallback, delay)]. *)
Definition setTimeout_timerRef (delay : nat) (w : World) : World :=
  mkWorld (isScanning w) (boxes w) (uniqueCodes w) (Some (nextHandle w))
          (timers w ++ [(nextHandle w, time w + delay)])
          (Pos.succ (nextHandle w)) (time w) (fired w).

(** The arrow function handed to [setTimeout]. *)
Definition clearCallback (w : World) : World :=
  setUniqueCodes [] (setBoxes [] w).

(** [if (timerRef.current) clearTimeout(timerRef.current)]. *)
Definition clearPending (w : World) : World :=
  match timerRef w with
  | Some h => clearTimeout h w
  | None => w
  end.

(** ** The detection handler *)

Section Handler.
Variables screenWidthPixelsRounded screenHeightPixelsRounded pixelRatio : number.

Local Open Scope float_scope.

(** The callback of [code.corners.reduce]: two assignments to [acc], which
    is then returned. *)
Definition cornerReducer (frame : Frame.t)
    (acc : gmap string number) (corner : Point.t) (index : nat) : gmap string number :=
  let acc1 :=
    <[pointKey index "x" :=
        Point.x corner * screenWidthPixelsRounded / Frame.height frame]> acc in
  <[pointKey index "y" :=
      Point.y corner * screenHeightPixelsRounded / Frame.width frame]> acc1.

(** [code.corners.reduce(..., {})]. *)
Definition cornersOf (frame : Frame.t) (cs : list Point.t) : gmap string number :=
  reduce (cornerReducer frame) cs ∅.

(** The callback of [codes.map] that builds one box. *)
Definition boxOf (frame : Frame.t) (code : Code.t) : Box.t :=
  let corners := cornersOf frame (Code.corners code) in
  let x := (Rect.x (Code.frame code) * screenWidthPixelsRounded) / Frame.height frame in
  let y := (Rect.y (Code.frame code) * screenHeightPixelsRounded) / Frame.width frame in
  let width := (Rect.width (Code.frame code) * screenWidthPixelsRounded) / Frame.height frame in
  let height := (Rect.height (Code.frame code) * screenHeightPixelsRounded) / Frame.width frame in
  Box.mk (x / pixelRatio) (y / pixelRatio) (width / pixelRatio) (height / pixelRatio) corners.

Definition newBoxes (codes : list Code.t) (frame : Frame.t) : list Box.t :=
  map (boxOf frame) codes.

(** [data.value !== undefined && data.value !== null]. *)
Definition hasValue (data : Entry.t) : bool :=
  match Entry.value data with
  | Undefined => false
  | Null => false
  | Str _ => true
  end.

(** [codes.map(code => ({value, scanTime: Date.now() - startTime})).filter(...)]. *)
Definition currentFrameValues (startTime : number) (codes : list Code.t)
    : Clock.M (list Entry.t) :=
  mapped <- Clock.mapM (fun code =>
              t <- Clock.Date_now ;;
              Clock.ret (Entry.mk (Code.value code) (t - startTime))) codes ;;
  Clock.ret (List.filter hasValue mapped).

Definition onCodeScanned (codes : list Code.t) (frame : Frame.t)
    (now : nat -> number) (w : World) : World :=
  if isScanning w then
    let w1 := clearPending w in
    if (0 <? length codes)%nat then
      Clock.run
        (startTime <- Clock.Date_now ;;
         let w2 := setBoxes (newBoxes codes frame) w1 in
         values <- currentFrameValues startTime codes ;;
         let w3 := setUniqueCodes values w2 in
         Clock.ret (setTimeout_timerRef 300%nat w3))
        now
    else
      setUniqueCodes [] (setBoxes [] w1)
  else w.
End Handler.

(** ** The event loop *)

(** Callbacks of the timeouts that are due run, each once, and leave the
    table. *)
Definition isDue (now_ms : nat) (t : positive * nat) : bool := (snd t <=? now_ms)%nat.

Definition fireDue (w : World) : World :=
  let due := List.filter (isDue (time w)) (timers w) in
  let rest := List.filter (fun t => negb (isDue (time w) t)) (timers w) in
  let w0 := mkWorld (isScanning w) (boxes w) (uniqueCodes w) (timerRef w)
                    rest (nextHandle w) (time w) (fired w) in
  foldl (fun acc t =>
           clearCallback
             (mkWorld (isScanning acc) (boxes acc) (uniqueCodes acc) (timerRef acc)
                      (timers acc) (nextHandle acc) (time acc) (fired acc ++ [fst t])))
        w0 due.

Definition elapse (ms : nat) (w : World) : World :=
  fireDue (mkWorld (isScanning w) (boxes w) (uniqueCodes w) (timerRef w)
                   (timers w) (nextHandle w) (time w + ms) (fired w)).

(** What can happen to a mounted component: the Start and Stop buttons (only
    one of them is rendered at a time), a detection event of the scanner,
    time passing, and the cleanup of the effect that owns the timer (on
    unmount, or before the effect runs again). *)
Inductive Event : Type :=
  | PressStart
  | PressStop
  | CodeScanned (codes : list Code.t) (frame : Frame.t) (now : nat -> number)
  | Elapse (ms : nat)
  | Cleanup.

Section Session.
Variables screenWidthPixelsRounded screenHeightPixelsRounded pixelRatio : number.

Definition step (w : World) (e : Event) : World :=
  match e with
  | PressStart => setIsScanning true w
  | PressStop => setIsScanning false w
  | CodeScanned codes frame now =>
      onCodeScanned screenWidthPixelsRounded screenHeightPixelsRounded pixelRatio
                    codes frame now w
  | Elapse ms => elapse ms w
  | Cleanup => clearPending w
  end.

Definition run (evs : list Event) (w : World) : World := foldl step w evs.

(** The state after the first render: [useState(false)], [useState([])]
    twice, [useRef(null)]; no timeout of the component is live. *)
Definition initial : World := mkWorld false [] [] None [] 1%positive 0 [].

Definition reachable (w : World) : Prop := exists evs, run evs initial = w.
End Session.

(** ** The claims in the spec's words *)

(** A value that is neither [undefined] nor [null]. *)
Definition definedValue (v : CodeValue) : Prop := v <> Undefined /\ v <> Null.

#[global] Instance definedValue_dec (v : CodeValue) : Decision (definedValue v).
Proof.
  refine (match v with
          | Str _ => left _
          | _ => right _
          end); unfold definedValue; [tauto | tauto | split; discriminate].
Defined.

(** The spec's description of [uniqueCodes]: every code is mapped to its
    value and the time read for it minus [startTime], then the entries
    without a value are dropped. *)
Definition spec_uniqueCodes (now : nat -> number) (codes : list Code.t) : list Entry.t :=
  filter (fun e => definedValue (Entry.value e))
         (imap (fun i code =>
                  Entry.mk (Code.value code) (PrimFloat.sub (now (S i)) (now 0%nat)))
               codes).

(** The two suffixes of the property names of a corners object. *)
Definition isAxis (a : string) : Prop := a = "x" \/ a = "y".

(** The object [acc] has no corner property for position [k] or later. *)
Definition noKeysFrom (k : nat) (acc : gmap string number) : Prop :=
  forall j a, k <= j -> isAxis a -> acc !! pointKey j a = None.

(** Events that neither deliver a frame nor run the cleanup. *)
Definition quietEvent (e : Event) : Prop :=
  match e with
  | PressStart | PressStop | Elapse _ => True
  | CodeScanned _ _ _ | Cleanup => False
  end.

(** The time that passes during a sequence of events. *)
Fixpoint elapsed (evs : list Event) : nat :=
  match evs with
  | [] => 0
  | Elapse ms :: rest => ms + elapsed rest
  | _ :: rest => elapsed rest
  end.

(** ** Invariants of the session *)

(** The only timeout that can be live is the one [timerRef] holds. *)
Definition timer_inv (w : World) : Prop :=
  timers w = [] \/ exists h due, timerRef w = Some h /\ timers w = [(h, due)].

(** Handles are handed out in increasing order. *)
Definition handles_inv (w : World) : Prop :=
  Forall (fun t => (fst t < nextHandle w)%positive) (timers w) /\
  Forall (fun h => (h < nextHandle w)%positive) (fired w).

Definition wf (w : World) : Prop := timer_inv w /\ handles_inv w.

(** A handle that was handed out and is no longer live. *)
Definition spent (h : positive) (w : World) : Prop :=
  (h < nextHandle w)%positive /\ ~ In h (map fst (timers w)).

(** How often the callback of timeout [h] has run. *)
Definition firings (h : positive) (w : World) : nat := count_occ Pos.eq_dec (fired w) h.

(** ** Rendering *)

(** [`${item.value}`]: a string is inserted as it is; [undefined] and [null]
    are spelled out. *)
Definition valueText (v : CodeValue) : string :=
  match v with
  | Undefined => "undefined"
  | Null => "null"
  | Str s => s
  end.

(** The [keyExtractor] of the list of scanned codes:
    [`${item.value}-${index}`]. *)
Definition keyExtractor (item : Entry.t) (index : nat) : string :=
  valueText (Entry.value item) +:+ "-" +:+ pretty index.

(** The keys the list computes for its [data], one call per row. *)
Definition rowKeys (data : list Entry.t) : list string :=
  imap (fun index item => keyExtractor item index) data.

(** The one button that is rendered: Stop while scanning, Start otherwise. *)
Definition renderedButton (w : World) : Event :=
  if isScanning w then PressStop else PressStart.

Definition buttonTitle (w : World) : string :=
  if isScanning w then "Stop" else "Start".

(** The [onPress] of the rendered button. *)
Definition pressButton (w : World) : World :=
  match renderedButton w with
  | PressStop => setIsScanning false w
  | _ => setIsScanning true w
  end.

(** A string without the character [-]. *)
Fixpoint noDash (s : string) : Prop :=
  match s with
  | EmptyString => True
  | String c rest => c <> "-"%char /\ noDash rest
  end.

(** ** Further invariants *)

(** Every entry carries a string. *)
Definition values_inv (w : World) : Prop :=
  Forall (fun e => exists s, Entry.value e = Str s) (uniqueCodes w).

(** There are never more entries than boxes. *)
Definition lists_inv (w : World) : Prop :=
  length (uniqueCodes w) <= length (boxes w).

(** A live timeout is due later than now, and within 300 ms. *)
Definition due_inv (w : World) : Prop :=
  Forall (fun t => time w < snd t /\ snd t <= time w + 300) (timers w).

(** No callback has run twice, and no live timeout has run. *)
Definition oneshot_inv (w : World) : Prop :=
  NoDup (fired w) /\ forall h, In h (map fst (timers w)) -> ~ In h (fired w).

(** Lists that are not empty are covered by a live timeout. *)
Definition covered_inv (w : World) : Prop :=
  (boxes w = [] /\ uniqueCodes w = []) \/ timers w <> [].

Definition notCleanup (e : Event) : Prop :=
  match e with
  | Cleanup => False
  | _ => True
  end.

(** ** Streams of detections *)

(** One detection event of the scanner, [gap] ms after the event before. *)
Record Detection : Type := mkDetection {
  gap : nat;
  detected : list Code.t;
  detectedFrame : Frame.t;
  detectedNow : nat -> number
}.

Definition stream (ds : list Detection) : list Event :=
  flat_map (fun d => [Elapse (gap d);
                      CodeScanned (detected d) (detectedFrame d) (detectedNow d)]) ds.

(** A detection with codes that comes less than 300 ms after the last. *)
Definition dense (d : Detection) : Prop := gap d < 300 /\ detected d <> [].

Definition notStart (e : Event) : Prop :=
  match e with
  | PressStart => False
  | _ => True
  end.

(** ** Concrete inputs for the examples *)

Definition portraitFrame : Frame.t := Frame.mk 480 640.

Definition qrCode : Code.t :=
  Code.mk (Str "QR-1") (Rect.mk 100 50 40 20)
          [Point.mk 100 50; Point.mk 140 50; Point.mk 140 70; Point.mk 100 70].

(** A code that was located but not decoded. *)
Definition undecodedCode : Code.t :=
  Code.mk Undefined (Rect.mk 10 5 4 2) [Point.mk 10 5; Point.mk 14 7].

(** Two clocks: one ticks between the reads, the other does not. *)
Definition tickingClock (k : nat) : number :=
  match k with
  | 0 => 1000
  | 1 => 1002
  | _ => 1005
  end%float.

Definition frozenClock (k : nat) : number := 1000%float.

(** The session after Start was pressed on the first render. *)
Definition started : World := setIsScanning true initial.

(** A frame whose height is reported as 0, and one whose width is. *)
Definition flatFrame : Frame.t := Frame.mk 480 0.

Definition thinFrame : Frame.t := Frame.mk 0 640.

(** * Proofs *)

(** ** The handler, unfolded *)

Lemma hasValue_defined (e : Entry.t) : hasValue e = bool_decide (definedValue (Entry.value e)).
Proof. destruct e as [[| |s] t]; reflexivity. Qed.

Lemma filter_bool_decide {A : Type} (P : A -> Prop) `{!forall a, Decision (P a)}
    (f : A -> bool) (l : list A) :
  (forall a, f a = bool_decide (P a)) -> List.filter f l = filter P l.
Proof.
  intros Hf. induction l as [|a l IH]; [reflexivity|].
  cbn [List.filter]. rewrite filter_cons, Hf, IH.
  destruct (decide (P a)) as [Hp|Hp].
  - rewrite bool_decide_eq_true_2 by exact Hp. reflexivity.
  - rewrite bool_decide_eq_false_2 by exact Hp. reflexivity.
Qed.

Lemma mapM_entries (startTime : number) (codes : list Code.t) (now : nat -> number) (k : nat) :
  Clock.mapM (fun code =>
                t <- Clock.Date_now ;;
                Clock.ret (Entry.mk (Code.value code) (PrimFloat.sub t startTime)))
             codes now k
  = (imap (fun i code => Entry.mk (Code.value code) (PrimFloat.sub (now (k + i)) startTime)) codes,
     k + length codes).
Proof.
  revert k. induction codes as [|c codes IH]; intros k.
  - cbn. f_equal. lia.
  - cbn [Clock.mapM]. unfold Clock.bind at 1. unfold Clock.bind at 1.
    unfold Clock.Date_now, Clock.ret at 1. unfold Clock.bind at 1.
    rewrite IH. unfold Clock.ret. cbn [imap length]. f_equal.
    + replace (k + 0) with k by lia. f_equal.
      apply imap_ext. intros i x _. cbn.
      replace (k + S i) with (S k + i) by lia. reflexivity.
    + lia.
Qed.

Lemma currentFrameValues_spec (codes : list Code.t) (now : nat -> number) :
  fst (currentFrameValues (now 0%nat) codes now 1%nat) = spec_uniqueCodes now codes.
Proof.
  unfold currentFrameValues. unfold Clock.bind at 1. rewrite mapM_entries. unfold Clock.ret. cbn [fst].
  unfold spec_uniqueCodes. apply filter_bool_decide. apply hasValue_defined.
Qed.

Section HandlerFacts.
Variables sw sh pr : number.

(** A frame with codes, accepted while scanning. *)
Lemma onCodeScanned_codes (codes : list Code.t) (frame : Frame.t)
    (now : nat -> number) (w : World) :
  isScanning w = true -> codes <> [] ->
  onCodeScanned sw sh pr codes frame now w
  = setTimeout_timerRef 300
      (setUniqueCodes (spec_uniqueCodes now codes)
         (setBoxes (newBoxes sw sh pr codes frame) (clearPending w))).
Proof.
  intros Hs Hne. unfold onCodeScanned. rewrite Hs.
  destruct codes as [|c codes]; [congruence|].
  replace (0 <? length (c :: codes))%nat with true by reflexivity.
  unfold Clock.run, Clock.bind at 1, Clock.Date_now.
  unfold Clock.bind at 1.
  pose proof (currentFrameValues_spec (c :: codes) now) as Hv.
  destruct (currentFrameValues (now 0%nat) (c :: codes) now 1%nat) as [vs k].
  cbn [fst] in Hv. subst vs. reflexivity.
Qed.

(** A frame without codes, accepted while scanning. *)
Lemma onCodeScanned_empty (frame : Frame.t) (now : nat -> number) (w : World) :
  isScanning w = true ->
  onCodeScanned sw sh pr [] frame now w
  = setUniqueCodes [] (setBoxes [] (clearPending w)).
Proof. intros Hs. unfold onCodeScanned. rewrite Hs. reflexivity. Qed.

(** A frame delivered while not scanning. *)
Lemma onCodeScanned_idle (codes : list Code.t) (frame : Frame.t)
    (now : nat -> number) (w : World) :
  isScanning w = false -> onCodeScanned sw sh pr codes frame now w = w.
Proof. intros Hs. unfold onCodeScanned. rewrite Hs. reflexivity. Qed.

Lemma boxes_after_frame (codes : list Code.t) (frame : Frame.t)
    (now : nat -> number) (w : World) :
  isScanning w = true ->
  boxes (onCodeScanned sw sh pr codes frame now w) = newBoxes sw sh pr codes frame.
Proof.
  intros Hs. destruct codes as [|c codes].
  - rewrite onCodeScanned_empty by exact Hs. reflexivity.
  - rewrite onCodeScanned_codes by (exact Hs || discriminate). reflexivity.
Qed.

Lemma uniqueCodes_after_frame (codes : list Code.t) (frame : Frame.t)
    (now : nat -> number) (w : World) :
  isScanning w = true ->
  uniqueCodes (onCodeScanned sw sh pr codes frame now w) = spec_uniqueCodes now codes.
Proof.
  intros Hs. destruct codes as [|c codes].
  - rewrite onCodeScanned_empty by exact Hs. reflexivity.
  - rewrite onCodeScanned_codes by (exact Hs || discriminate). reflexivity.
Qed.
End HandlerFacts.

(** ** Values and lengths of the entry list *)

Section EntryLists.
Variable g : nat -> Code.t -> Entry.t.

Lemma values_filter_imap (codes : list Code.t) :
  (forall i c, Entry.value (g i c) = Code.value c) ->
  map Entry.value (filter (fun e => definedValue (Entry.value e)) (imap g codes))
  = filter definedValue (map Code.value codes).
Proof.
  revert g. induction codes as [|c codes IH]; intros h Hh; [reflexivity|].
  cbn [imap map]. rewrite !filter_cons, Hh.
  destruct (decide (definedValue (Code.value c))); cbn [map];
    rewrite IH by (intros i c'; apply Hh); rewrite ?Hh; reflexivity.
Qed.

Lemma length_filter_imap (codes : list Code.t) :
  (forall i c, Entry.value (g i c) = Code.value c) ->
  length (filter (fun e => definedValue (Entry.value e)) (imap g codes))
  = length (filter (fun c => definedValue (Code.value c)) codes).
Proof.
  revert g. induction codes as [|c codes IH]; intros h Hh; [reflexivity|].
  cbn [imap]. rewrite !filter_cons, Hh.
  destruct (decide (definedValue (Code.value c))); cbn [length];
    rewrite IH by (intros i c'; apply Hh); reflexivity.
Qed.

Lemma count_filter_imap (codes : list Code.t) (s : string) :
  (forall i c, Entry.value (g i c) = Code.value c) ->
  length (filter (fun e => Entry.value e = Str s)
                 (filter (fun e => definedValue (Entry.value e)) (imap g codes)))
  = length (filter (fun c => Code.value c = Str s) codes).
Proof.
  revert g. induction codes as [|c codes IH]; intros h Hh; [reflexivity|].
  cbn [imap]. rewrite (filter_cons (fun c => Code.value c = Str s)).
  rewrite (filter_cons (fun e => definedValue (Entry.value e))), Hh.
  destruct (decide (definedValue (Code.value c))) as [Hd|Hd].
  - rewrite filter_cons, Hh.
    destruct (decide (Code.value c = Str s)); cbn [length];
      rewrite IH by (intros i c'; apply Hh); reflexivity.
  - destruct (decide (Code.value c = Str s)) as [Hv|Hv].
    + exfalso. apply Hd. rewrite Hv. split; discriminate.
    + apply IH. intros i c'. apply Hh.
Qed.
End EntryLists.

(** ** The rectangle of a box *)

(** C2: for every code of a frame handled while scanning, the box at the
    code's position has x = (rect.x * screenWidthPixelsRounded /
    frame.height) / pixelRatio, y = (rect.y * screenHeightPixelsRounded /
    frame.width) / pixelRatio, and width and height likewise; for the frame
    480 x 640, the metrics 1080, 2400, 3 and the rectangle 100, 50, 40, 20 the
    box is 56.25, 83.33..., 22.5, 33.33... (the binary64 quotients 250 / 3 and
    100 / 3). *)
Theorem box_rectangle_scaling
    (sw sh pr : number) (codes : list Code.t) (frame : Frame.t)
    (now : nat -> number) (w : World) (i : nat) (code : Code.t) :
  isScanning w = true ->
  codes !! i = Some code ->
  exists box : Box.t,
    boxes (onCodeScanned sw sh pr codes frame now w) !! i = Some box /\
    (Box.x box = (Rect.x (Code.frame code) * sw / Frame.height frame) / pr /\
     Box.y box = (Rect.y (Code.frame code) * sh / Frame.width frame) / pr /\
     Box.width box = (Rect.width (Code.frame code) * sw / Frame.height frame) / pr /\
     Box.height box = (Rect.height (Code.frame code) * sh / Frame.width frame) / pr)%float /\
    (sw = 1080 -> sh = 2400 -> pr = 3 -> frame = Frame.mk 480 640 ->
     Code.frame code = Rect.mk 100 50 40 20 ->
     Box.x box = 56.25 /\ Box.y box = 0x1.4d55555555555p+6 /\
     Box.width box = 22.5 /\ Box.height box = 0x1.0aaaaaaaaaaabp+5 /\
     Box.y box = 250 / 3 /\ Box.height box = 100 / 3)%float.
Proof.
  intros Hs Hi. exists (boxOf sw sh pr frame code). split.
  - rewrite boxes_after_frame by exact Hs. unfold newBoxes.
    rewrite list_lookup_fmap, Hi. reflexivity.
  - split; [repeat split|].
    intros -> -> -> -> Hr. unfold boxOf. cbn [Box.x Box.y Box.width Box.height].
    rewrite Hr. cbn [Rect.x Rect.y Rect.width Rect.height Frame.width Frame.height].
    repeat split; reflexivity.
Qed.

Lemma box_rectangle_scaling_witness :
  exists box : Box.t,
    boxes (onCodeScanned 1080 2400 3 [undecodedCode; qrCode] portraitFrame
                         tickingClock started) !! 1%nat = Some box /\
    (Box.x box = 56.25 /\ Box.y box = 0x1.4d55555555555p+6 /\
     Box.width box = 22.5 /\ Box.height box = 0x1.0aaaaaaaaaaabp+5 /\
     Box.y box = 250 / 3 /\ Box.height box = 100 / 3)%float.
Proof.
  destruct (box_rectangle_scaling 1080 2400 3 [undecodedCode; qrCode] portraitFrame
              tickingClock started 1 qrCode eq_refl eq_refl)
    as (box & Hbox & _ & Hexample).
  exists box. split; [exact Hbox|]. apply Hexample; reflexivity.
Defined.

(** ** Lengths *)

(** C4: a frame with n > 0 codes handled while scanning leaves exactly n
    boxes, and as many entries in uniqueCodes as there are codes whose value
    is neither null nor undefined, hence at most n; the two lengths can
    differ. *)
Theorem boxes_and_uniqueCodes_lengths (sw sh pr : number) :
  (forall (codes : list Code.t) (frame : Frame.t) (now : nat -> number) (w : World),
     isScanning w = true -> 0 < length codes ->
     let w' := onCodeScanned sw sh pr codes frame now w in
     length (boxes w') = length codes /\
     length (uniqueCodes w')
     = length (filter (fun c => definedValue (Code.value c)) codes) /\
     length (uniqueCodes w') <= length codes) /\
  (exists (codes : list Code.t) (frame : Frame.t) (now : nat -> number) (w : World),
     isScanning w = true /\ 0 < length codes /\
     let w' := onCodeScanned sw sh pr codes frame now w in
     length (boxes w') <> length (uniqueCodes w')).
Proof.
  split.
  - intros codes frame now w Hs Hn w'. subst w'.
    rewrite boxes_after_frame, uniqueCodes_after_frame by exact Hs.
    unfold newBoxes, spec_uniqueCodes.
    rewrite length_map, length_filter_imap by reflexivity.
    split; [reflexivity|]. split; [reflexivity|]. apply length_filter.
  - exists [undecodedCode; qrCode], portraitFrame, tickingClock, started.
    split; [reflexivity|]. split; [cbn; lia|]. cbv zeta.
    rewrite boxes_after_frame, uniqueCodes_after_frame by reflexivity.
    unfold newBoxes, spec_uniqueCodes.
    rewrite length_map, length_filter_imap by reflexivity.
    vm_compute. discriminate.
Qed.

Lemma boxes_and_uniqueCodes_lengths_witness :
  let w' := onCodeScanned 1080 2400 3 [undecodedCode; qrCode; qrCode] portraitFrame
                          tickingClock started in
  length (boxes w') = 3 /\ length (uniqueCodes w') = 2.
Proof.
  destruct (proj1 (boxes_and_uniqueCodes_lengths 1080 2400 3)
              [undecodedCode; qrCode; qrCode] portraitFrame tickingClock started
              eq_refl (Nat.lt_0_succ 2))
    as (Hb & Hu & _).
  split; [exact Hb | exact Hu].
Defined.

(** ** The entry list *)

(** C5: for a frame with codes handled while scanning, uniqueCodes is the
    code list mapped to value and time-read-minus-startTime and then
    filtered to the entries with a value that is neither null nor
    undefined; the values come in input order, and equal values are all
    kept: a value occurs among the entries as often as among the codes. *)
Theorem uniqueCodes_map_then_filter
    (sw sh pr : number) (codes : list Code.t) (frame : Frame.t)
    (now : nat -> number) (w : World) :
  isScanning w = true -> codes <> [] ->
  let w' := onCodeScanned sw sh pr codes frame now w in
  uniqueCodes w' = spec_uniqueCodes now codes /\
  map Entry.value (uniqueCodes w') = filter definedValue (map Code.value codes) /\
  (forall s : string,
     length (filter (fun e => Entry.value e = Str s) (uniqueCodes w'))
     = length (filter (fun c => Code.value c = Str s) codes)).
Proof.
  intros Hs Hne w'. subst w'. rewrite uniqueCodes_after_frame by exact Hs.
  split; [reflexivity|]. unfold spec_uniqueCodes. split.
  - apply values_filter_imap. reflexivity.
  - intros s. apply count_filter_imap. reflexivity.
Qed.

Lemma uniqueCodes_map_then_filter_witness :
  let w' := onCodeScanned 1080 2400 3 [qrCode; undecodedCode; qrCode] portraitFrame
                          tickingClock started in
  uniqueCodes w' = [Entry.mk (Str "QR-1") 2; Entry.mk (Str "QR-1") 5] /\
  length (filter (fun e => Entry.value e = Str "QR-1") (uniqueCodes w')) = 2.
Proof.
  destruct (uniqueCodes_map_then_filter 1080 2400 3 [qrCode; undecodedCode; qrCode]
              portraitFrame tickingClock started eq_refl
              (fun H => eq_ind [qrCode; undecodedCode; qrCode]
                          (fun l => match l with [] => False | _ => True end)
                          I [] H))
    as (Hu & _ & Hc).
  split; [rewrite Hu; reflexivity | rewrite Hc; reflexivity].
Defined.

(** ** Timeouts *)

Lemma elapse_no_timer (ms : nat) (w : World) :
  timers w = [] ->
  elapse ms w = mkWorld (isScanning w) (boxes w) (uniqueCodes w) (timerRef w)
                        [] (nextHandle w) (time w + ms) (fired w).
Proof. destruct w; cbn. intros ->. reflexivity. Qed.

Lemma elapse_one_timer (ms : nat) (w : World) (h : positive) (due : nat) :
  timers w = [(h, due)] ->
  elapse ms w =
    if (due <=? time w + ms)%nat
    then mkWorld (isScanning w) [] [] (timerRef w)
                 [] (nextHandle w) (time w + ms) (fired w ++ [h])
    else mkWorld (isScanning w) (boxes w) (uniqueCodes w) (timerRef w)
                 [(h, due)] (nextHandle w) (time w + ms) (fired w).
Proof.
  destruct w; cbn. intros ->. unfold elapse, fireDue, isDue. cbn.
  destruct (due <=? time0 + ms)%nat; reflexivity.
Qed.

Lemma clearPending_timers (w : World) : timer_inv w -> timers (clearPending w) = [].
Proof.
  intros [He|(h & due & Hr & Ht)]; unfold clearPending.
  - destruct (timerRef w); cbn; rewrite He; reflexivity.
  - rewrite Hr. cbn. rewrite Ht. cbn. rewrite Pos.eqb_refl. reflexivity.
Qed.

Lemma clearPending_rest (w : World) :
  isScanning (clearPending w) = isScanning w /\
  boxes (clearPending w) = boxes w /\
  uniqueCodes (clearPending w) = uniqueCodes w /\
  timerRef (clearPending w) = timerRef w /\
  nextHandle (clearPending w) = nextHandle w /\
  time (clearPending w) = time w /\
  fired (clearPending w) = fired w.
Proof. destruct w as [s b u [h|] ts n t f]; repeat split; reflexivity. Qed.

Section SessionFacts.
Variables sw sh pr : number.

Lemma step_wf (w : World) (e : Event) : wf w -> wf (step sw sh pr w e).
Proof.
  intros [Ht [Hl Hf]].
  pose proof (clearPending_timers w Ht) as Hc.
  destruct (clearPending_rest w) as (_ & _ & _ & _ & Hn & _ & Hfd).
  destruct e as [| |codes frame now|ms|]; cbn [step].
  - split; [exact Ht | split; assumption].
  - split; [exact Ht | split; assumption].
  - destruct (isScanning w) eqn:Hs; [|rewrite onCodeScanned_idle by exact Hs; repeat split; assumption].
    destruct codes as [|c codes].
    + rewrite onCodeScanned_empty by exact Hs. unfold wf, timer_inv, handles_inv. cbn.
      rewrite Hc, Hn, Hfd. split; [left; reflexivity|]. split; [constructor | exact Hf].
    + rewrite onCodeScanned_codes by (exact Hs || discriminate).
      unfold wf, timer_inv, handles_inv. cbn. rewrite Hc, Hn, Hfd. cbn. split.
      * right. eexists _, _. split; reflexivity.
      * split; [repeat constructor; cbn; lia|].
        eapply Forall_impl; [exact Hf|]. cbn. intros; lia.
  - destruct Ht as [He|(h & due & Hr & Ht)].
    + rewrite elapse_no_timer by exact He. unfold wf, timer_inv, handles_inv. cbn.
      split; [left; reflexivity|]. split; [constructor | exact Hf].
    + rewrite (elapse_one_timer ms w h due Ht).
      destruct (due <=? time w + ms)%nat; unfold wf, timer_inv, handles_inv; cbn.
      * split; [left; reflexivity|]. split; [constructor|].
        apply Forall_app. split; [exact Hf|]. rewrite Ht in Hl.
        apply Forall_cons in Hl. destruct Hl as [Hh _]. repeat constructor. exact Hh.
      * split; [right; exists h, due; split; [exact Hr | reflexivity]|].
        split; [rewrite <- Ht; exact Hl | exact Hf].
  - unfold wf, timer_inv, handles_inv. rewrite Hc, Hn, Hfd.
    split; [left; reflexivity|]. split; [constructor | exact Hf].
Qed.

Lemma run_wf (evs : list Event) (w : World) : wf w -> wf (run sw sh pr evs w).
Proof.
  revert w. induction evs as [|e evs IH]; intros w Hw; [exact Hw|].
  cbn. apply IH, step_wf, Hw.
Qed.

Lemma reachable_wf (w : World) : reachable sw sh pr w -> wf w.
Proof.
  intros [evs <-]. apply run_wf. split; [left; reflexivity|].
  split; constructor.
Qed.

Lemma reachable_step (w : World) (e : Event) :
  reachable sw sh pr w -> reachable sw sh pr (step sw sh pr w e).
Proof.
  intros [evs <-]. exists (evs ++ [e]). unfold run. rewrite foldl_app. reflexivity.
Qed.
End SessionFacts.

(** ** Handles that are no longer live *)

Lemma firings_fresh (w : World) : handles_inv w -> firings (nextHandle w) w = 0.
Proof.
  intros [_ Hf]. unfold firings. apply count_occ_not_In. intros Hin.
  rewrite List.Forall_forall in Hf. specialize (Hf _ Hin). lia.
Qed.

Section SpentHandles.
Variables sw sh pr : number.
Variable h : positive.

Lemma spent_step (w : World) (e : Event) :
  wf w -> spent h w ->
  spent h (step sw sh pr w e) /\ firings h (step sw sh pr w e) = firings h w.
Proof.
  intros [Ht Hh] [Hlt Hnot].
  pose proof (clearPending_timers w Ht) as Hc.
  destruct (clearPending_rest w) as (_ & _ & _ & _ & Hn & _ & Hfd).
  destruct e as [| |codes frame now|ms|]; cbn [step].
  - split; [split; assumption | reflexivity].
  - split; [split; assumption | reflexivity].
  - destruct (isScanning w) eqn:Hs;
      [|rewrite onCodeScanned_idle by exact Hs; split; [split; assumption | reflexivity]].
    destruct codes as [|c codes].
    + rewrite onCodeScanned_empty by exact Hs. unfold spent, firings. cbn.
      rewrite Hc, Hn, Hfd. cbn. repeat split; [exact Hlt | tauto].
    + rewrite onCodeScanned_codes by (exact Hs || discriminate).
      unfold spent, firings. cbn. rewrite Hc, Hn, Hfd. cbn.
      repeat split; [lia | intros [Heq|[]]; lia].
  - destruct Ht as [He|(h' & due & Hr & Ht)].
    + rewrite elapse_no_timer by exact He. unfold spent, firings. cbn.
      repeat split; [exact Hlt | tauto].
    + rewrite (elapse_one_timer ms w h' due Ht). rewrite Ht in Hnot. cbn in Hnot.
      destruct (due <=? time w + ms)%nat; unfold spent, firings; cbn.
      * repeat split; [exact Hlt | tauto |].
        rewrite count_occ_app. cbn. destruct (Pos.eq_dec h' h); [tauto | lia].
      * repeat split; [exact Hlt | exact Hnot].
  - unfold spent, firings. rewrite Hc, Hn, Hfd. cbn.
    repeat split; [exact Hlt | tauto].
Qed.

Lemma spent_run (evs : list Event) (w : World) :
  wf w -> spent h w -> firings h (run sw sh pr evs w) = firings h w.
Proof.
  revert w. induction evs as [|e evs IH]; intros w Hw Hsp; [reflexivity|].
  cbn. destruct (spent_step w e Hw Hsp) as [Hsp' Hf'].
  fold (run sw sh pr evs (step sw sh pr w e)).
  rewrite IH by (apply step_wf, Hw || exact Hsp'). exact Hf'.
Qed.
End SpentHandles.

(** ** Frames *)

(** C7: a frame delivered while isScanning is false changes nothing: boxes
    and uniqueCodes stay as they are, and no timeout is scheduled or
    cancelled (the whole state, with the runtime's table of timeouts, is
    the same). *)
Theorem idle_frame_ignored
    (sw sh pr : number) (codes : list Code.t) (frame : Frame.t)
    (now : nat -> number) (w : World) :
  isScanning w = false ->
  let w' := onCodeScanned sw sh pr codes frame now w in
  w' = w /\ boxes w' = boxes w /\ uniqueCodes w' = uniqueCodes w /\
  timers w' = timers w /\ timerRef w' = timerRef w /\ nextHandle w' = nextHandle w.
Proof.
  intros Hs w'. subst w'. rewrite onCodeScanned_idle by exact Hs.
  repeat split; reflexivity.
Qed.

Lemma idle_frame_ignored_witness :
  let w := run 1080 2400 3
               [PressStart; CodeScanned [qrCode] portraitFrame tickingClock; PressStop]
               initial in
  let w' := onCodeScanned 1080 2400 3 [undecodedCode] portraitFrame frozenClock w in
  w' = w /\ boxes w' = boxes w /\ uniqueCodes w' = uniqueCodes w /\
  timers w' = timers w /\ timerRef w' = timerRef w /\ nextHandle w' = nextHandle w.
Proof.
  apply (idle_frame_ignored 1080 2400 3 [undecodedCode] portraitFrame frozenClock).
  reflexivity.
Defined.

(** C6: a frame with an empty code list delivered while scanning leaves
    boxes = [] and uniqueCodes = []; the timeout that timerRef holds is
    cancelled, so in a reachable state no timeout is live afterwards; and no
    new timeout is scheduled (no handle is handed out, timerRef is not
    reassigned). *)
Theorem empty_frame_clears
    (sw sh pr : number) (frame : Frame.t) (now : nat -> number) (w : World) :
  isScanning w = true ->
  let w' := onCodeScanned sw sh pr [] frame now w in
  boxes w' = [] /\ uniqueCodes w' = [] /\
  (forall h, timerRef w = Some h -> ~ In h (map fst (timers w'))) /\
  (reachable sw sh pr w -> timers w' = []) /\
  (forall t, In t (timers w') -> In t (timers w)) /\
  nextHandle w' = nextHandle w /\ timerRef w' = timerRef w.
Proof.
  intros Hs w'. subst w'. rewrite onCodeScanned_empty by exact Hs.
  destruct (clearPending_rest w) as (_ & _ & _ & Hr & Hn & _ & _).
  cbn. rewrite Hr, Hn. repeat split.
  - intros h Hh. unfold clearPending. rewrite Hh. cbn.
    rewrite in_map_iff. intros ([h' due] & Heq & Hin). cbn in Heq. subst h'.
    apply filter_In in Hin. destruct Hin as [_ Hin]. cbn in Hin.
    rewrite Pos.eqb_refl in Hin. discriminate.
  - intros Hreach. apply clearPending_timers. apply (reachable_wf sw sh pr w Hreach).
  - intros t. unfold clearPending. destruct (timerRef w); [|tauto].
    cbn. rewrite filter_In. tauto.
Qed.

Lemma empty_frame_clears_witness :
  let w := run 1080 2400 3
               [PressStart; CodeScanned [qrCode] portraitFrame tickingClock; Elapse 100]
               initial in
  let w' := onCodeScanned 1080 2400 3 [] portraitFrame frozenClock w in
  timers w = [(1%positive, 300)] /\ boxes w <> [] /\
  boxes w' = [] /\ uniqueCodes w' = [] /\ timers w' = [] /\
  nextHandle w' = nextHandle w.
Proof.
  pose (evs := [PressStart; CodeScanned [qrCode] portraitFrame tickingClock; Elapse 100]).
  destruct (empty_frame_clears 1080 2400 3 portraitFrame frozenClock
              (run 1080 2400 3 evs initial) eq_refl)
    as (Hb & Hu & _ & Ht & _ & Hn & _).
  split; [reflexivity|]. split; [discriminate|].
  split; [exact Hb|]. split; [exact Hu|].
  split; [apply Ht; exists evs; reflexivity | exact Hn].
Defined.

(** ** The clear timer *)

(** C8: in every reachable state at most one timeout is live; a frame
    handled while scanning cancels it before it schedules at most one new
    timeout, so that afterwards only the new one is live (or none, for an
    empty frame); and the effect cleanup leaves none. *)
Theorem at_most_one_pending_timer (sw sh pr : number) (w : World) :
  reachable sw sh pr w ->
  length (timers w) <= 1 /\
  (forall codes frame now,
     isScanning w = true ->
     timers (clearPending w) = [] /\
     timers (step sw sh pr w (CodeScanned codes frame now))
     = match codes with
       | [] => []
       | _ :: _ => [(nextHandle w, time w + 300)]
       end) /\
  timers (step sw sh pr w Cleanup) = [].
Proof.
  intros Hreach. destruct (reachable_wf sw sh pr w Hreach) as [Ht _].
  pose proof (clearPending_timers w Ht) as Hc.
  destruct (clearPending_rest w) as (_ & _ & _ & _ & Hn & Htime & _).
  split; [|split].
  - destruct Ht as [->|(h & due & _ & ->)]; cbn; lia.
  - intros codes frame now Hs. split; [exact Hc|]. cbn [step].
    destruct codes as [|c codes].
    + rewrite onCodeScanned_empty by exact Hs. exact Hc.
    + rewrite onCodeScanned_codes by (exact Hs || discriminate).
      cbn. rewrite Hc, Hn, Htime. reflexivity.
  - exact Hc.
Qed.

Lemma at_most_one_pending_timer_witness :
  let w := run 1080 2400 3
               [PressStart; CodeScanned [qrCode] portraitFrame tickingClock;
                Elapse 120; CodeScanned [undecodedCode] portraitFrame frozenClock;
                PressStop; Elapse 50]
               initial in
  timers w = [(2%positive, 420)] /\ length (timers w) <= 1 /\
  timers (step 1080 2400 3 w Cleanup) = [].
Proof.
  pose (evs := [PressStart; CodeScanned [qrCode] portraitFrame tickingClock;
                Elapse 120; CodeScanned [undecodedCode] portraitFrame frozenClock;
                PressStop; Elapse 50]).
  destruct (at_most_one_pending_timer 1080 2400 3 (run 1080 2400 3 evs initial)
              (ex_intro _ evs eq_refl))
    as (Hlen & _ & Hclean).
  split; [reflexivity|]. split; [exact Hlen | exact Hclean].
Defined.

(** Without a live timeout, quiet events change neither list. *)
Lemma quiet_run_no_timer (sw sh pr : number) (evs : list Event) (w : World) :
  Forall quietEvent evs -> timers w = [] ->
  let w' := run sw sh pr evs w in
  boxes w' = boxes w /\ uniqueCodes w' = uniqueCodes w /\
  timers w' = [] /\ fired w' = fired w /\ nextHandle w' = nextHandle w.
Proof.
  revert w. induction evs as [|e evs IH]; intros w Hq Ht; [cbn; tauto|].
  apply Forall_cons in Hq. destruct Hq as [He Hq].
  change (run sw sh pr (e :: evs) w) with (run sw sh pr evs (step sw sh pr w e)).
  assert (Hstep : boxes (step sw sh pr w e) = boxes w /\
                  uniqueCodes (step sw sh pr w e) = uniqueCodes w /\
                  timers (step sw sh pr w e) = [] /\
                  fired (step sw sh pr w e) = fired w /\
                  nextHandle (step sw sh pr w e) = nextHandle w).
  { destruct e as [| |codes frame now|ms|]; try contradiction; cbn [step].
    - cbn. tauto.
    - cbn. tauto.
    - rewrite elapse_no_timer by exact Ht. cbn. tauto. }
  destruct Hstep as (Hb & Hu & Ht' & Hf & Hn).
  specialize (IH (step sw sh pr w e) Hq Ht'). cbv zeta in IH.
  rewrite Hb, Hu, Hf, Hn in IH. exact IH.
Qed.

(** With one live timeout that is not yet due, quiet events leave the lists
    alone until the due time is reached, and empty them from then on. *)
Lemma quiet_run_one_timer (sw sh pr : number) (evs : list Event) (w : World)
    (h : positive) (due : nat) :
  Forall quietEvent evs -> timers w = [(h, due)] -> time w < due ->
  let w' := run sw sh pr evs w in
  nextHandle w' = nextHandle w /\
  (time w + elapsed evs < due ->
   boxes w' = boxes w /\ uniqueCodes w' = uniqueCodes w /\
   timers w' = [(h, due)] /\ fired w' = fired w) /\
  (due <= time w + elapsed evs ->
   boxes w' = [] /\ uniqueCodes w' = [] /\
   timers w' = [] /\ fired w' = fired w ++ [h]).
Proof.
  revert w. induction evs as [|e evs IH]; intros w Hq Ht Hlt.
  - cbn. split; [reflexivity|]. split; [tauto | lia].
  - apply Forall_cons in Hq. destruct Hq as [He Hq].
    change (run sw sh pr (e :: evs) w) with (run sw sh pr evs (step sw sh pr w e)).
    destruct e as [| |codes frame now|ms|]; try contradiction; cbn [step elapsed].
    + apply (IH (setIsScanning true w) Hq Ht Hlt).
    + apply (IH (setIsScanning false w) Hq Ht Hlt).
    + rewrite (elapse_one_timer ms w h due Ht).
      destruct (Nat.leb_spec due (time w + ms)) as [Hdue|Hdue].
      * cbv zeta.
        match goal with |- context [run sw sh pr evs ?v] =>
          destruct (quiet_run_no_timer sw sh pr evs v Hq eq_refl)
            as (Hb & Hu & Ht' & Hf & Hn)
        end.
        cbn in Hb, Hu, Hf, Hn. rewrite Hb, Hu, Ht', Hf, Hn.
        split; [reflexivity|]. split; [lia | tauto].
      * match goal with |- context [run sw sh pr evs ?v] =>
          specialize (IH v Hq eq_refl Hdue)
        end.
        cbv zeta in IH. cbn in IH. cbv zeta.
        destruct IH as (Hn & Hearly & Hlate). split; [exact Hn|].
        split; intros Hcmp; [apply Hearly | apply Hlate]; lia.
Qed.

(** C9: while scanning, a frame with codes schedules one timeout, due 300 ms
    later.  As long as less than 300 ms have passed without a frame, boxes
    and uniqueCodes are still those of the frame, and the next frame handled
    while scanning cancels the timeout, whose callback then never runs.
    Once at least 300 ms have passed without a frame, the callback has run,
    boxes = [] and uniqueCodes = [], and it never runs again: it has run
    exactly once whatever happens later. *)
Theorem clear_timer_debounce
    (sw sh pr : number) (codes : list Code.t) (frame : Frame.t)
    (now : nat -> number) (w : World) :
  reachable sw sh pr w -> isScanning w = true -> codes <> [] ->
  let h := nextHandle w in
  let w1 := step sw sh pr w (CodeScanned codes frame now) in
  (timerRef w1 = Some h /\ timers w1 = [(h, time w + 300)] /\ firings h w1 = 0) /\
  (forall quiet, Forall quietEvent quiet -> elapsed quiet < 300 ->
     let w2 := run sw sh pr quiet w1 in
     boxes w2 = newBoxes sw sh pr codes frame /\ boxes w2 <> [] /\
     uniqueCodes w2 = spec_uniqueCodes now codes /\
     fired w2 = fired w /\
     (isScanning w2 = true ->
      forall codes' frame' now',
        let w3 := step sw sh pr w2 (CodeScanned codes' frame' now') in
        ~ In h (map fst (timers w3)) /\
        boxes w3 = newBoxes sw sh pr codes' frame' /\
        forall evs, firings h (run sw sh pr evs w3) = 0)) /\
  (forall quiet, Forall quietEvent quiet -> 300 <= elapsed quiet ->
     let w2 := run sw sh pr quiet w1 in
     boxes w2 = [] /\ uniqueCodes w2 = [] /\
     fired w2 = fired w ++ [h] /\ timers w2 = [] /\
     forall evs, firings h (run sw sh pr evs w2) = 1).
Proof.
  intros Hreach Hs Hne h w1.
  pose proof (reachable_wf sw sh pr w Hreach) as Hwf.
  assert (Hwf1 : wf w1) by (apply step_wf, Hwf).
  destruct Hwf as [Ht Hh].
  pose proof (clearPending_timers w Ht) as Hc.
  destruct (clearPending_rest w) as (Hsc & _ & _ & _ & Hn & Htime & Hfd).
  pose proof (firings_fresh w Hh) as Hfresh. fold h in Hfresh.
  assert (Hw1 : w1 = mkWorld true (newBoxes sw sh pr codes frame)
                             (spec_uniqueCodes now codes) (Some h)
                             [(h, time w + 300)] (Pos.succ h) (time w) (fired w)).
  { subst w1. cbn [step]. rewrite onCodeScanned_codes by assumption.
    unfold setTimeout_timerRef. cbn. rewrite Hc, Hn, Htime, Hfd, Hsc, Hs. reflexivity. }
  clearbody w1.
  assert (Hboxes : newBoxes sw sh pr codes frame <> []).
  { destruct codes; [congruence | discriminate]. }
  assert (Htimer : timers w1 = [(h, time w + 300)]) by (rewrite Hw1; reflexivity).
  assert (Hnotdue : time w1 < time w + 300) by (rewrite Hw1; cbn; lia).
  assert (Htime1 : time w1 = time w) by (rewrite Hw1; reflexivity).
  split; [|split].
  - rewrite Hw1. cbn. repeat split. exact Hfresh.
  - intros quiet Hq Hshort w2.
    assert (Hwf2 : wf w2) by (apply run_wf, Hwf1).
    destruct (quiet_run_one_timer sw sh pr quiet w1 h (time w + 300) Hq Htimer Hnotdue)
      as (Hn2 & Hearly & _).
    fold w2 in Hn2, Hearly. clearbody w2.
    destruct Hearly as (Hb2 & Hu2 & Ht2 & Hf2); [lia|].
    rewrite Hw1 in Hn2, Hb2, Hu2, Hf2. cbn in Hn2, Hb2, Hu2, Hf2.
    split; [exact Hb2|]. split; [rewrite Hb2; exact Hboxes|].
    split; [exact Hu2|]. split; [exact Hf2|].
    intros Hs2 codes' frame' now' w3.
    assert (Hsp : spent h w3 /\ firings h w3 = 0).
    { pose proof (clearPending_timers w2 (proj1 Hwf2)) as Hc2.
      destruct (clearPending_rest w2) as (_ & _ & _ & _ & Hn2' & _ & Hfd2).
      subst w3. cbn [step]. destruct codes' as [|c' codes'].
      - rewrite onCodeScanned_empty by exact Hs2. unfold spent, firings. cbn.
        rewrite Hc2, Hn2', Hfd2, Hn2, Hf2. cbn.
        repeat split; [lia | tauto | exact Hfresh].
      - rewrite onCodeScanned_codes by (exact Hs2 || discriminate).
        unfold spent, firings. cbn. rewrite Hc2, Hn2', Hfd2, Hn2, Hf2. cbn.
        repeat split; [lia | intros [Heq|[]]; lia | exact Hfresh]. }
    destruct Hsp as [Hsp Hzero]. split; [exact (proj2 Hsp)|]. split.
    + subst w3. cbn [step]. apply boxes_after_frame. exact Hs2.
    + intros evs. rewrite (spent_run sw sh pr h evs w3); [exact Hzero | | exact Hsp].
      apply step_wf, Hwf2.
  - intros quiet Hq Hlong w2.
    assert (Hwf2 : wf w2) by (apply run_wf, Hwf1).
    destruct (quiet_run_one_timer sw sh pr quiet w1 h (time w + 300) Hq Htimer Hnotdue)
      as (Hn2 & _ & Hlate).
    fold w2 in Hn2, Hlate. clearbody w2.
    destruct Hlate as (Hb2 & Hu2 & Ht2 & Hf2); [lia|].
    rewrite Hw1 in Hn2, Hf2. cbn in Hn2, Hf2.
    split; [exact Hb2|]. split; [exact Hu2|]. split; [exact Hf2|]. split; [exact Ht2|].
    intros evs. rewrite (spent_run sw sh pr h evs w2 Hwf2).
    + unfold firings in *. rewrite Hf2, count_occ_app, Hfresh. cbn.
      destruct (Pos.eq_dec h h); [reflexivity | congruence].
    + unfold spent. rewrite Hn2, Ht2. cbn. split; [lia | tauto].
Qed.

Lemma clear_timer_debounce_witness :
  let w1 := step 1080 2400 3 started (CodeScanned [qrCode] portraitFrame tickingClock) in
  timers w1 = [(1%positive, 300)] /\
  boxes (run 1080 2400 3 [Elapse 200; Elapse 99] w1) <> [] /\
  boxes (run 1080 2400 3 [Elapse 200; PressStop; Elapse 100] w1) = [] /\
  firings 1 (run 1080 2400 3 [Elapse 1000; PressStart; Elapse 5]
                 (run 1080 2400 3 [Elapse 200; PressStop; Elapse 100] w1)) = 1.
Proof.
  destruct (clear_timer_debounce 1080 2400 3 [qrCode] portraitFrame tickingClock started
              (ex_intro _ [PressStart] eq_refl) eq_refl ltac:(discriminate))
    as ((_ & Ht & _) & Hshort & Hlong).
  split; [exact Ht|].
  split; [apply (Hshort [Elapse 200; Elapse 99]); [repeat constructor | cbn; lia]|].
  destruct (Hlong [Elapse 200; PressStop; Elapse 100]
                  ltac:(repeat constructor) ltac:(cbn; lia))
    as (Hb & _ & _ & _ & Honce).
  split; [exact Hb | apply Honce].
Defined.

(** ** Stop *)

(** C1, as the code has it: pressing Stop while scanning sets isScanning to
    false and nothing else; boxes and uniqueCodes keep their contents and the
    pending timeout stays live, so that its callback empties both lists
    once it is due. *)
Theorem stop_keeps_state (sw sh pr : number) (w : World) :
  isScanning w = true ->
  let w' := step sw sh pr w PressStop in
  isScanning w' = false /\
  boxes w' = boxes w /\ uniqueCodes w' = uniqueCodes w /\
  timers w' = timers w /\ timerRef w' = timerRef w /\
  (forall h due ms,
     timers w = [(h, due)] -> due <= time w + ms ->
     boxes (step sw sh pr w' (Elapse ms)) = [] /\
     uniqueCodes (step sw sh pr w' (Elapse ms)) = []).
Proof.
  intros Hs w'. subst w'. cbn [step]. repeat split.
  - rewrite (elapse_one_timer ms (setIsScanning false w) h due) by assumption.
    cbn. destruct (Nat.leb_spec due (time w + ms)); [reflexivity | lia].
  - rewrite (elapse_one_timer ms (setIsScanning false w) h due) by assumption.
    cbn. destruct (Nat.leb_spec due (time w + ms)); [reflexivity | lia].
Qed.

Lemma stop_keeps_state_witness :
  let w := run 1080 2400 3
               [PressStart; CodeScanned [qrCode] portraitFrame tickingClock; Elapse 40]
               initial in
  let w' := step 1080 2400 3 w PressStop in
  isScanning w' = false /\ boxes w' = boxes w /\ uniqueCodes w' = uniqueCodes w /\
  timers w' = [(1%positive, 300)] /\
  boxes (step 1080 2400 3 w' (Elapse 260)) = [].
Proof.
  pose (w := run 1080 2400 3
               [PressStart; CodeScanned [qrCode] portraitFrame tickingClock; Elapse 40]
               initial).
  destruct (stop_keeps_state 1080 2400 3 w eq_refl) as (Hs & Hb & Hu & Ht & _ & Hfire).
  split; [exact Hs|]. split; [exact Hb|]. split; [exact Hu|].
  split; [reflexivity|].
  apply (Hfire 1%positive 300 260); [reflexivity | cbn; lia].
Defined.

(** C1, as the spec states it, fails after one accepted frame: Stop leaves
    the box and the entry of that frame in place. *)
Lemma stop_clears_counterexample :
  let w := run 1080 2400 3
               [PressStart; CodeScanned [qrCode] portraitFrame tickingClock]
               initial in
  let w' := step 1080 2400 3 w PressStop in
  isScanning w = true /\ length (boxes w') = 1 /\ length (uniqueCodes w') = 1 /\
  ~ (isScanning w' = false /\ boxes w' = [] /\ uniqueCodes w' = [] /\
     timers w' = timers w).
Proof.
  cbv zeta. split; [reflexivity|]. split; [reflexivity|]. split; [reflexivity|].
  intros (_ & Hb & _). apply (f_equal (@length Box.t)) in Hb.
  revert Hb. cbn [length]. change (1 <> 0). discriminate.
Qed.

(** ** Determinism of the boxes *)

(** C10: for fixed device metrics the boxes depend only on the codes and the
    frame: two invocations while scanning, from any two states and with any
    two clocks, leave the same boxes, corners included; the values of
    uniqueCodes agree as well, and only scanTime can differ. *)
Theorem boxes_deterministic
    (sw sh pr : number) (codes : list Code.t) (frame : Frame.t)
    (now1 now2 : nat -> number) (w1 w2 : World) :
  isScanning w1 = true -> isScanning w2 = true ->
  let r1 := onCodeScanned sw sh pr codes frame now1 w1 in
  let r2 := onCodeScanned sw sh pr codes frame now2 w2 in
  boxes r1 = boxes r2 /\
  map Box.corners (boxes r1) = map Box.corners (boxes r2) /\
  map Entry.value (uniqueCodes r1) = map Entry.value (uniqueCodes r2).
Proof.
  intros H1 H2 r1 r2. subst r1 r2.
  rewrite !boxes_after_frame, !uniqueCodes_after_frame by assumption.
  split; [reflexivity|]. split; [reflexivity|].
  unfold spec_uniqueCodes. rewrite !values_filter_imap by reflexivity. reflexivity.
Qed.

Lemma boxes_deterministic_witness :
  let w2 := run 1080 2400 3
                [PressStart; CodeScanned [undecodedCode] portraitFrame frozenClock;
                 Elapse 10]
                initial in
  let r1 := onCodeScanned 1080 2400 3 [qrCode] portraitFrame tickingClock started in
  let r2 := onCodeScanned 1080 2400 3 [qrCode] portraitFrame frozenClock w2 in
  boxes r1 = boxes r2 /\
  map Entry.value (uniqueCodes r1) = map Entry.value (uniqueCodes r2) /\
  map Entry.scanTime (uniqueCodes r1) = [2%float] /\
  map Entry.scanTime (uniqueCodes r2) = [0%float].
Proof.
  destruct (boxes_deterministic 1080 2400 3 [qrCode] portraitFrame
              tickingClock frozenClock started
              (run 1080 2400 3
                   [PressStart; CodeScanned [undecodedCode] portraitFrame frozenClock;
                    Elapse 10]
                   initial)
              eq_refl eq_refl)
    as (Hb & _ & Hv).
  split; [exact Hb|]. split; [exact Hv|]. split; reflexivity.
Defined.

(** ** Property names of the corners object *)

Lemma app_last_inj (s t : string) (c d : Ascii.ascii) :
  s +:+ String c "" = t +:+ String d "" -> s = t /\ c = d.
Proof.
  revert t. induction s as [|a s IH]; intros [|b t] Heq; cbn in Heq.
  - injection Heq as ->. split; reflexivity.
  - injection Heq as _ Heq. destruct t; discriminate.
  - injection Heq as _ Heq. destruct s; discriminate.
  - injection Heq as -> Heq. destruct (IH t Heq) as [-> ->]. split; reflexivity.
Qed.

Lemma pointKey_inj (i j : nat) (a b : string) :
  isAxis a -> isAxis b -> pointKey i a = pointKey j b -> i = j /\ a = b.
Proof.
  unfold pointKey. intros Ha Hb Heq.
  apply (inj (String.append "point")) in Heq.
  assert (Hlast : exists c d, a = String c "" /\ b = String d "").
  { destruct Ha as [-> | ->], Hb as [-> | ->]; eexists _, _; split; reflexivity. }
  destruct Hlast as (c & d & -> & ->).
  apply app_last_inj in Heq. destruct Heq as [Hp ->].
  apply (inj pretty) in Hp. split; [lia | reflexivity].
Qed.

Lemma pointKey_ne_index (i j : nat) (a b : string) :
  isAxis a -> isAxis b -> i <> j -> pointKey i a <> pointKey j b.
Proof. intros Ha Hb Hij Heq. destruct (pointKey_inj i j a b Ha Hb Heq). contradiction. Qed.

Lemma pointKey_x_ne_y (i : nat) : pointKey i "x" <> pointKey i "y".
Proof.
  intros Heq. destruct (pointKey_inj i i "x" "y") as [_ Hxy];
    [left; reflexivity | right; reflexivity | exact Heq | discriminate].
Qed.

(** ** The corners object *)

Section Corners.
Variables sw sh : number.
Variable frame : Frame.t.

Local Abbreviation F := (cornerReducer sw sh frame).

Lemma cornerReducer_lookup_x (acc : gmap string number) (corner : Point.t) (k : nat) :
  F acc corner k !! pointKey k "x"
  = Some (Point.x corner * sw / Frame.height frame)%float.
Proof.
  unfold cornerReducer.
  rewrite lookup_insert_ne by (apply not_eq_sym, pointKey_x_ne_y).
  apply lookup_insert_eq.
Qed.

Lemma cornerReducer_lookup_y (acc : gmap string number) (corner : Point.t) (k : nat) :
  F acc corner k !! pointKey k "y"
  = Some (Point.y corner * sh / Frame.width frame)%float.
Proof. unfold cornerReducer. apply lookup_insert_eq. Qed.

Lemma cornerReducer_lookup_other (acc : gmap string number) (corner : Point.t)
    (k : nat) (key : string) :
  key <> pointKey k "x" -> key <> pointKey k "y" ->
  F acc corner k !! key = acc !! key.
Proof.
  intros Hx Hy. unfold cornerReducer.
  rewrite !lookup_insert_ne by (apply not_eq_sym; assumption). reflexivity.
Qed.

(** Later corners do not touch the properties of earlier ones. *)
Lemma reduce_from_lookup_before (cs : list Point.t) (acc : gmap string number)
    (k j : nat) (a : string) :
  isAxis a -> j < k ->
  reduce_from F acc k cs !! pointKey j a = acc !! pointKey j a.
Proof.
  intros Ha. revert acc k. induction cs as [|c cs IH]; intros acc k Hjk; [reflexivity|].
  cbn [reduce_from]. rewrite IH by lia.
  apply cornerReducer_lookup_other; apply pointKey_ne_index;
    solve [exact Ha | left; reflexivity | right; reflexivity | lia].
Qed.

Lemma reduce_from_lookup (cs : list Point.t) (acc : gmap string number)
    (k i : nat) (corner : Point.t) :
  cs !! i = Some corner ->
  reduce_from F acc k cs !! pointKey (k + i) "x"
  = Some (Point.x corner * sw / Frame.height frame)%float /\
  reduce_from F acc k cs !! pointKey (k + i) "y"
  = Some (Point.y corner * sh / Frame.width frame)%float.
Proof.
  revert acc k i. induction cs as [|c cs IH]; intros acc k i Hi; [discriminate|].
  cbn [reduce_from]. destruct i as [|i].
  - injection Hi as ->. replace (k + 0) with k by lia.
    rewrite !reduce_from_lookup_before by (lia || (left; reflexivity) || (right; reflexivity)).
    split; [apply cornerReducer_lookup_x | apply cornerReducer_lookup_y].
  - replace (k + S i) with (S k + i) by lia. apply IH. exact Hi.
Qed.

Lemma reduce_from_is_Some (cs : list Point.t) (acc : gmap string number)
    (k : nat) (key : string) :
  is_Some (reduce_from F acc k cs !! key) <->
  is_Some (acc !! key) \/
  exists i a, i < length cs /\ isAxis a /\ key = pointKey (k + i) a.
Proof.
  revert acc k. induction cs as [|c cs IH]; intros acc k; cbn [reduce_from length].
  - split; [tauto|]. intros [H|(i & a & Hi & _)]; [exact H | lia].
  - rewrite IH. unfold cornerReducer. rewrite !lookup_insert_is_Some'. split.
    + intros [[Hy|[Hx|Hacc]]|(i & a & Hi & Ha & Hk)].
      * right. exists 0, "y". replace (k + 0) with k by lia.
        split; [lia|]. split; [right; reflexivity | congruence].
      * right. exists 0, "x". replace (k + 0) with k by lia.
        split; [lia|]. split; [left; reflexivity | congruence].
      * left. exact Hacc.
      * right. exists (S i), a. replace (k + S i) with (S k + i) by lia.
        split; [lia|]. split; assumption.
    + intros [Hacc|(i & a & Hi & Ha & Hk)]; [tauto|].
      destruct i as [|i].
      * left. replace (k + 0) with k in Hk by lia.
        destruct Ha as [-> | ->]; [right; left | left]; congruence.
      * right. exists i, a. replace (S k + i) with (k + S i) by lia.
        split; [lia|]. split; assumption.
Qed.

Lemma cornerReducer_noKeysFrom (acc : gmap string number) (corner : Point.t) (k : nat) :
  noKeysFrom k acc -> noKeysFrom (S k) (F acc corner k).
Proof.
  intros Hacc j a Hj Ha.
  rewrite cornerReducer_lookup_other; [apply Hacc; [lia | exact Ha] | |];
    apply pointKey_ne_index;
    solve [exact Ha | left; reflexivity | right; reflexivity | lia].
Qed.

Lemma cornerReducer_size (acc : gmap string number) (corner : Point.t) (k : nat) :
  noKeysFrom k acc -> size (F acc corner k) = S (S (size acc)).
Proof.
  intros Hacc. unfold cornerReducer.
  rewrite map_size_insert_None.
  - rewrite map_size_insert_None; [reflexivity|].
    apply Hacc; [lia | left; reflexivity].
  - rewrite lookup_insert_ne by apply pointKey_x_ne_y.
    apply Hacc; [lia | right; reflexivity].
Qed.

Lemma reduce_from_size (cs : list Point.t) (acc : gmap string number) (k : nat) :
  noKeysFrom k acc -> size (reduce_from F acc k cs) = size acc + 2 * length cs.
Proof.
  revert acc k. induction cs as [|c cs IH]; intros acc k Hacc; cbn [reduce_from length].
  - lia.
  - rewrite IH by (apply cornerReducer_noKeysFrom, Hacc).
    rewrite cornerReducer_size by exact Hacc. lia.
Qed.

Lemma cornersOf_lookup (cs : list Point.t) (i : nat) (corner : Point.t) :
  cs !! i = Some corner ->
  cornersOf sw sh frame cs !! pointKey i "x"
  = Some (Point.x corner * sw / Frame.height frame)%float /\
  cornersOf sw sh frame cs !! pointKey i "y"
  = Some (Point.y corner * sh / Frame.width frame)%float.
Proof. intros Hi. apply (reduce_from_lookup cs ∅ 0 i corner Hi). Qed.

Lemma cornersOf_is_Some (cs : list Point.t) (key : string) :
  is_Some (cornersOf sw sh frame cs !! key) <->
  exists i a, i < length cs /\ isAxis a /\ key = pointKey i a.
Proof.
  unfold cornersOf, reduce. rewrite reduce_from_is_Some, lookup_empty.
  split; [intros [[v Hv]|H]; [discriminate | exact H] | intros H; right; exact H].
Qed.

Lemma cornersOf_size (cs : list Point.t) :
  size (cornersOf sw sh frame cs) = 2 * length cs.
Proof.
  unfold cornersOf, reduce. rewrite reduce_from_size.
  - rewrite map_size_empty. lia.
  - intros j a _ _. apply lookup_empty.
Qed.
End Corners.

(** C3: for every code of a frame handled while scanning and every corner at
    position i (counted from 0), the corners object of its box has
    point{i+1}x = corner.x * screenWidthPixelsRounded / frame.height and
    point{i+1}y = corner.y * screenHeightPixelsRounded / frame.width; it has
    these properties and no others, two per corner however many corners
    there are; and it is the same for every pixelRatio. *)
Theorem box_corners_mapping
    (sw sh pr : number) (codes : list Code.t) (frame : Frame.t)
    (now : nat -> number) (w : World) (n : nat) (code : Code.t) :
  isScanning w = true ->
  codes !! n = Some code ->
  exists box : Box.t,
    boxes (onCodeScanned sw sh pr codes frame now w) !! n = Some box /\
    (forall i corner,
       Code.corners code !! i = Some corner ->
       Box.corners box !! ("point" +:+ pretty (i + 1) +:+ "x")
       = Some (Point.x corner * sw / Frame.height frame)%float /\
       Box.corners box !! ("point" +:+ pretty (i + 1) +:+ "y")
       = Some (Point.y corner * sh / Frame.width frame)%float) /\
    (forall key,
       is_Some (Box.corners box !! key) <->
       exists i a, i < length (Code.corners code) /\ isAxis a /\
                   key = "point" +:+ pretty (i + 1) +:+ a) /\
    size (Box.corners box) = 2 * length (Code.corners code) /\
    (forall pr' now' w',
       isScanning w' = true ->
       Box.corners <$> (boxes (onCodeScanned sw sh pr' codes frame now' w') !! n)
       = Some (Box.corners box)).
Proof.
  intros Hs Hn. exists (boxOf sw sh pr frame code).
  assert (Hbox : forall pr' now' w', isScanning w' = true ->
            boxes (onCodeScanned sw sh pr' codes frame now' w') !! n
            = Some (boxOf sw sh pr' frame code)).
  { intros pr' now' w' Hs'. rewrite boxes_after_frame by exact Hs'.
    unfold newBoxes. rewrite list_lookup_fmap, Hn. reflexivity. }
  split; [apply Hbox, Hs|]. cbn [boxOf Box.corners].
  split; [intros i corner Hi; apply (cornersOf_lookup sw sh frame _ i corner Hi)|].
  split; [intros key; apply cornersOf_is_Some|].
  split; [apply cornersOf_size|].
  intros pr' now' w' Hs'. rewrite (Hbox pr' now' w' Hs'). reflexivity.
Qed.

Lemma box_corners_mapping_witness :
  exists box : Box.t,
    boxes (onCodeScanned 1080 2400 3 [qrCode; undecodedCode] portraitFrame
                         tickingClock started) !! 1 = Some box /\
    Box.corners box !! "point1x" = Some 16.875%float /\
    Box.corners box !! "point1y" = Some 25%float /\
    Box.corners box !! "point2x" = Some 23.625%float /\
    Box.corners box !! "point2y" = Some 35%float /\
    size (Box.corners box) = 4.
Proof.
  destruct (box_corners_mapping 1080 2400 3 [qrCode; undecodedCode] portraitFrame
              tickingClock started 1 undecodedCode eq_refl eq_refl)
    as (box & Hbox & Hcorner & _ & Hsize & _).
  exists box. split; [exact Hbox|].
  destruct (Hcorner 0 (Point.mk 10 5) eq_refl) as [H1x H1y].
  destruct (Hcorner 1 (Point.mk 14 7) eq_refl) as [H2x H2y].
  split; [exact H1x|]. split; [exact H1y|].
  split; [exact H2x|]. split; [exact H2y | exact Hsize].
Defined.

(** ** Keys of the rows *)

Lemma pretty_N_char_not_dash (x : N) : pretty_N_char x <> "-"%char.
Proof. unfold pretty_N_char. repeat case_match; discriminate. Qed.

Lemma pretty_N_go_noDash (x : N) (s : string) : noDash s -> noDash (pretty_N_go x s).
Proof.
  revert s. induction (N.lt_wf_0 x) as [x _ IH]; intros s Hs.
  destruct (N.eq_0_gt_0_cases x) as [-> | Hpos].
  - rewrite pretty_N_go_0. exact Hs.
  - rewrite pretty_N_go_step by exact Hpos. apply IH.
    + apply N.div_lt; [exact Hpos | reflexivity].
    + split; [apply pretty_N_char_not_dash | exact Hs].
Qed.

(** The decimal numeral of an index has no [-]. *)
Lemma pretty_nat_noDash (n : nat) : noDash (pretty n).
Proof.
  unfold pretty, pretty_nat, pretty, pretty_N.
  destruct (decide (N.of_nat n = 0%N)).
  - split; [discriminate | exact I].
  - apply pretty_N_go_noDash. exact I.
Qed.

Lemma noDash_app_dash (s d : string) : ~ noDash (s +:+ "-" +:+ d).
Proof.
  induction s as [|c s IH]; cbn.
  - intros [Hc _]. apply Hc. reflexivity.
  - intros [_ Hs]. apply IH, Hs.
Qed.

Lemma append_nil_l (s : string) : "" +:+ s = s.
Proof. reflexivity. Qed.

Lemma append_cons (c : ascii) (s t : string) : String c s +:+ t = String c (s +:+ t).
Proof. reflexivity. Qed.

(** A text is split in one way only at its last [-]. *)
Lemma last_dash_split (s1 s2 d1 d2 : string) :
  noDash d1 -> noDash d2 ->
  s1 +:+ "-" +:+ d1 = s2 +:+ "-" +:+ d2 -> s1 = s2 /\ d1 = d2.
Proof.
  intros H1 H2. revert s2. induction s1 as [|c s1 IH]; intros [|c' s2] Heq;
    repeat (rewrite append_nil_l in Heq || rewrite append_cons in Heq).
  - injection Heq as ->. split; reflexivity.
  - injection Heq as _ Heq. exfalso. rewrite Heq in H1.
    apply (noDash_app_dash s2 d2 H1).
  - injection Heq as _ Heq. exfalso. rewrite <- Heq in H2.
    apply (noDash_app_dash s1 d1 H2).
  - injection Heq as -> Heq. destruct (IH s2 Heq) as [-> ->]. split; reflexivity.
Qed.

(** X1: the key of a row determines its position and the text of its value:
    rows at different positions never share a key, whatever their values
    (equal values, values that contain [-] or digits), so the keys of any
    data list are pairwise distinct. *)
Theorem keyExtractor_keys_distinct :
  (forall (a b : Entry.t) (i j : nat),
     keyExtractor a i = keyExtractor b j ->
     i = j /\ valueText (Entry.value a) = valueText (Entry.value b)) /\
  (forall data : list Entry.t,
     NoDup (rowKeys data) /\ length (rowKeys data) = length data).
Proof.
  assert (Hinj : forall (a b : Entry.t) (i j : nat),
             keyExtractor a i = keyExtractor b j ->
             i = j /\ valueText (Entry.value a) = valueText (Entry.value b)).
  { intros a b i j Heq. unfold keyExtractor in Heq.
    apply last_dash_split in Heq; try apply pretty_nat_noDash.
    destruct Heq as [Hv Hp]. apply (inj pretty) in Hp. split; assumption. }
  split; [exact Hinj|]. intros data. split.
  - apply NoDup_alt. intros i j key Hi Hj. unfold rowKeys in Hi, Hj.
    rewrite list_lookup_imap in Hi, Hj.
    destruct (data !! i) as [a|]; [|discriminate].
    destruct (data !! j) as [b|]; [|discriminate].
    cbn in Hi, Hj. injection Hi as Hi. injection Hj as Hj.
    apply (Hinj a b i j). congruence.
  - apply length_imap.
Qed.

Lemma keyExtractor_keys_distinct_witness :
  rowKeys [Entry.mk (Str "QR-1") 2; Entry.mk (Str "QR-1") 5; Entry.mk (Str "QR-1-1") 5]
  = ["QR-1-0"; "QR-1-1"; "QR-1-1-2"] /\
  NoDup (rowKeys [Entry.mk (Str "QR-1") 2; Entry.mk (Str "QR-1") 5;
                  Entry.mk (Str "QR-1-1") 5]) /\
  (1 = 1 /\ valueText (Str "QR-1") = valueText (Str "QR-1")).
Proof.
  split; [vm_compute; reflexivity|]. split.
  - apply (proj2 keyExtractor_keys_distinct).
  - apply (proj1 keyExtractor_keys_distinct
             (Entry.mk (Str "QR-1") 5) (Entry.mk (Str "QR-1") 2) 1 1).
    vm_compute. reflexivity.
Defined.

(** ** What one event does to a well-formed state *)

Section Effects.
Variables sw sh pr : number.

(** The six ways in which an event changes the lists, the table of timeouts,
    the time and the log. *)
Lemma step_effect (w : World) (e : Event) :
  wf w ->
  let w' := step sw sh pr w e in
  (boxes w' = boxes w /\ uniqueCodes w' = uniqueCodes w /\ timers w' = timers w /\
   time w' = time w /\ fired w' = fired w /\ nextHandle w' = nextHandle w) \/
  (e = Cleanup /\
   boxes w' = boxes w /\ uniqueCodes w' = uniqueCodes w /\ timers w' = [] /\
   time w' = time w /\ fired w' = fired w /\ nextHandle w' = nextHandle w) \/
  (boxes w' = [] /\ uniqueCodes w' = [] /\ timers w' = [] /\
   time w' = time w /\ fired w' = fired w /\ nextHandle w' = nextHandle w) \/
  (exists codes frame now,
     codes <> [] /\
     boxes w' = newBoxes sw sh pr codes frame /\
     uniqueCodes w' = spec_uniqueCodes now codes /\
     timers w' = [(nextHandle w, time w + 300)] /\
     time w' = time w /\ fired w' = fired w /\
     nextHandle w' = Pos.succ (nextHandle w)) \/
  (exists ms,
     boxes w' = boxes w /\ uniqueCodes w' = uniqueCodes w /\ timers w' = timers w /\
     time w' = time w + ms /\ fired w' = fired w /\ nextHandle w' = nextHandle w /\
     Forall (fun t => time w + ms < snd t) (timers w)) \/
  (exists ms h due,
     timers w = [(h, due)] /\ due <= time w + ms /\
     boxes w' = [] /\ uniqueCodes w' = [] /\ timers w' = [] /\
     time w' = time w + ms /\ fired w' = fired w ++ [h] /\
     nextHandle w' = nextHandle w).
Proof.
  intros [Ht _] w'. subst w'.
  pose proof (clearPending_timers w Ht) as Hc.
  destruct (clearPending_rest w) as (_ & Hb & Hu & _ & Hn & Htime & Hfd).
  destruct e as [| |codes frame now|ms|]; cbn [step].
  - left. repeat split.
  - left. repeat split.
  - destruct (isScanning w) eqn:Hs;
      [|rewrite onCodeScanned_idle by exact Hs; left; repeat split].
    destruct codes as [|c codes].
    + rewrite onCodeScanned_empty by exact Hs. do 2 right. left. cbn.
      rewrite Hc, Htime, Hfd, Hn. repeat split.
    + rewrite onCodeScanned_codes by (exact Hs || discriminate). do 3 right. left.
      exists (c :: codes), frame, now. cbn. rewrite Hc, Htime, Hfd, Hn.
      repeat split. discriminate.
  - destruct Ht as [He|(h & due & Hr & Ht)].
    + rewrite elapse_no_timer by exact He. do 4 right. left. exists ms. cbn.
      rewrite He. repeat split. constructor.
    + rewrite (elapse_one_timer ms w h due Ht).
      destruct (Nat.leb_spec due (time w + ms)) as [Hdue|Hdue].
      * do 5 right. exists ms, h, due. cbn. repeat split; assumption.
      * do 4 right. left. exists ms. cbn. rewrite Ht. repeat split.
        repeat constructor. exact Hdue.
  - right. left. rewrite Hb, Hu, Hc, Htime, Hfd, Hn. repeat split.
Qed.

(** An invariant of the steps that are allowed holds along every run. *)
Lemma run_invariant (allowed : Event -> Prop) (P : World -> Prop) :
  (forall w e, allowed e -> wf w -> P w -> P (step sw sh pr w e)) ->
  forall evs w, Forall allowed evs -> wf w -> P w -> P (run sw sh pr evs w).
Proof.
  intros Hstep evs. induction evs as [|e evs IH]; intros w Hall Hwf HP; [exact HP|].
  apply Forall_cons in Hall. destruct Hall as [He Hall].
  change (run sw sh pr (e :: evs) w) with (run sw sh pr evs (step sw sh pr w e)).
  apply IH; [exact Hall | apply step_wf, Hwf | apply Hstep; assumption].
Qed.

Lemma initial_wf : wf initial.
Proof. split; [left; reflexivity | split; constructor]. Qed.

Lemma reachable_invariant (P : World -> Prop) :
  P initial ->
  (forall w e, wf w -> P w -> P (step sw sh pr w e)) ->
  forall w, reachable sw sh pr w -> P w.
Proof.
  intros H0 Hstep w [evs <-].
  apply (run_invariant (fun _ => True) P); [intros; apply Hstep; assumption | |
    apply initial_wf | exact H0].
  apply Forall_forall. intros; exact I.
Qed.

Lemma step_values_inv (w : World) (e : Event) :
  wf w -> values_inv w -> values_inv (step sw sh pr w e).
Proof.
  intros Hwf Hv. unfold values_inv in *.
  destruct (step_effect w e Hwf)
    as [H|[H|[H|[(codes & frame & now & _ & H)|[(ms & H)|(ms & h & due & _ & _ & H)]]]]].
  - destruct H as (_ & -> & _). exact Hv.
  - destruct H as (_ & _ & -> & _). exact Hv.
  - destruct H as (_ & -> & _). constructor.
  - destruct H as (_ & -> & _). apply Forall_forall. intros en Hin.
    apply list_elem_of_filter in Hin. destruct Hin as [[Hu Hn] _].
    destruct (Entry.value en) as [| |s]; [congruence | congruence | exists s; reflexivity].
  - destruct H as (_ & -> & _). exact Hv.
  - destruct H as (_ & -> & _). constructor.
Qed.

Lemma step_lists_inv (w : World) (e : Event) :
  wf w -> lists_inv w -> lists_inv (step sw sh pr w e).
Proof.
  intros Hwf Hl. unfold lists_inv in *.
  destruct (step_effect w e Hwf)
    as [H|[H|[H|[(codes & frame & now & _ & H)|[(ms & H)|(ms & h & due & _ & _ & H)]]]]].
  - destruct H as (-> & -> & _). exact Hl.
  - destruct H as (_ & -> & -> & _). exact Hl.
  - destruct H as (-> & -> & _). reflexivity.
  - destruct H as (-> & -> & _). unfold newBoxes, spec_uniqueCodes.
    rewrite length_map. etransitivity; [apply length_filter|].
    rewrite length_imap. reflexivity.
  - destruct H as (-> & -> & _). exact Hl.
  - destruct H as (-> & -> & _). reflexivity.
Qed.

Lemma step_due_inv (w : World) (e : Event) :
  wf w -> due_inv w -> due_inv (step sw sh pr w e).
Proof.
  intros Hwf Hd. unfold due_inv in *.
  destruct (step_effect w e Hwf)
    as [H|[H|[H|[(codes & frame & now & _ & H)|[(ms & H)|(ms & h & due & _ & _ & H)]]]]].
  - destruct H as (_ & _ & -> & -> & _). exact Hd.
  - destruct H as (_ & _ & _ & -> & _). constructor.
  - destruct H as (_ & _ & -> & _). constructor.
  - destruct H as (_ & _ & -> & -> & _). repeat constructor; cbn; lia.
  - destruct H as (_ & _ & -> & -> & _ & _ & Hlater).
    rewrite List.Forall_forall in *. intros t Hin.
    specialize (Hd t Hin). specialize (Hlater t Hin). cbn in Hlater. lia.
  - destruct H as (_ & _ & -> & _). constructor.
Qed.

Lemma step_oneshot_inv (w : World) (e : Event) :
  wf w -> oneshot_inv w -> oneshot_inv (step sw sh pr w e).
Proof.
  intros Hwf [Hnd Hlive]. unfold oneshot_inv in *.
  destruct (step_effect w e Hwf)
    as [H|[H|[H|[(codes & frame & now & _ & H)|[(ms & H)|(ms & h & due & Ht & _ & H)]]]]].
  - destruct H as (_ & _ & -> & _ & -> & _). split; assumption.
  - destruct H as (_ & _ & _ & -> & _ & -> & _). split; [exact Hnd | intros h []].
  - destruct H as (_ & _ & -> & _ & -> & _). split; [exact Hnd | intros h []].
  - destruct H as (_ & _ & -> & _ & -> & _). split; [exact Hnd|].
    intros h Hh Hin. cbn in Hh. destruct Hh as [<-|[]]. destruct Hwf as [_ [_ Hf]].
    rewrite List.Forall_forall in Hf. specialize (Hf _ Hin). cbn in Hf. lia.
  - destruct H as (_ & _ & -> & _ & -> & _). split; assumption.
  - destruct H as (_ & _ & -> & _ & -> & _). split; [|intros h' []].
    assert (Hfresh : ~ In h (fired w)) by (apply Hlive; rewrite Ht; left; reflexivity).
    apply NoDup_app. split; [exact Hnd|]. split; [|apply NoDup_singleton].
    intros x Hx Hx'. apply list_elem_of_singleton in Hx'. subst x.
    apply Hfresh. apply list_elem_of_In. exact Hx.
Qed.

Lemma step_covered_inv (w : World) (e : Event) :
  notCleanup e -> wf w -> covered_inv w -> covered_inv (step sw sh pr w e).
Proof.
  intros He Hwf Hc. unfold covered_inv in *.
  destruct (step_effect w e Hwf)
    as [H|[H|[H|[(codes & frame & now & _ & H)|[(ms & H)|(ms & h & due & _ & _ & H)]]]]].
  - destruct H as (-> & -> & -> & _). exact Hc.
  - destruct H as (-> & _). contradiction.
  - destruct H as (-> & -> & _). left. split; reflexivity.
  - destruct H as (_ & _ & -> & _). right. discriminate.
  - destruct H as (-> & -> & -> & _). exact Hc.
  - destruct H as (-> & -> & _). left. split; reflexivity.
Qed.
End Effects.

(** ** Invariants of every reachable state *)

(** X3: in every reachable state each entry of uniqueCodes carries a string,
    never null or undefined, so the text shown for it is that string. *)
Theorem uniqueCodes_values_are_strings (sw sh pr : number) (w : World) :
  reachable sw sh pr w ->
  forall e, In e (uniqueCodes w) ->
    exists s, Entry.value e = Str s /\ valueText (Entry.value e) = s.
Proof.
  intros Hreach.
  assert (Hv : values_inv w).
  { revert w Hreach. apply reachable_invariant; [constructor|].
    intros w e. apply step_values_inv. }
  intros e Hin. unfold values_inv in Hv. rewrite List.Forall_forall in Hv.
  destruct (Hv e Hin) as [s Hs]. exists s. rewrite Hs. split; reflexivity.
Qed.

Lemma uniqueCodes_values_are_strings_witness :
  let w := run 1080 2400 3
               [PressStart;
                CodeScanned [undecodedCode; qrCode] portraitFrame tickingClock;
                Elapse 20; PressStop]
               initial in
  uniqueCodes w = [Entry.mk (Str "QR-1") 5] /\
  forall e, In e (uniqueCodes w) ->
    exists s, Entry.value e = Str s /\ valueText (Entry.value e) = s.
Proof.
  pose (evs := [PressStart;
                CodeScanned [undecodedCode; qrCode] portraitFrame tickingClock;
                Elapse 20; PressStop]).
  split; [reflexivity|].
  exact (uniqueCodes_values_are_strings 1080 2400 3 (run 1080 2400 3 evs initial)
           (ex_intro _ evs eq_refl)).
Defined.

(** X4: in every reachable state uniqueCodes has at most as many entries as
    there are boxes; in particular there are no entries without boxes. *)
Theorem entries_never_outnumber_boxes (sw sh pr : number) (w : World) :
  reachable sw sh pr w ->
  length (uniqueCodes w) <= length (boxes w) /\
  (boxes w = [] -> uniqueCodes w = []).
Proof.
  intros Hreach.
  assert (Hl : lists_inv w).
  { revert w Hreach. apply reachable_invariant; [unfold lists_inv; cbn; lia|].
    intros w e. apply step_lists_inv. }
  unfold lists_inv in Hl. split; [exact Hl|].
  intros Hb. rewrite Hb in Hl. destruct (uniqueCodes w); [reflexivity | cbn in Hl; lia].
Qed.

Lemma entries_never_outnumber_boxes_witness :
  let w := run 1080 2400 3
               [PressStart;
                CodeScanned [undecodedCode; qrCode; undecodedCode] portraitFrame frozenClock;
                Elapse 299]
               initial in
  length (boxes w) = 3 /\ length (uniqueCodes w) <= length (boxes w).
Proof.
  pose (evs := [PressStart;
                CodeScanned [undecodedCode; qrCode; undecodedCode] portraitFrame frozenClock;
                Elapse 299]).
  split; [reflexivity|].
  exact (proj1 (entries_never_outnumber_boxes 1080 2400 3 (run 1080 2400 3 evs initial)
                  (ex_intro _ evs eq_refl))).
Defined.

(** X5: in every reachable state a live timeout is due later than the
    current time and at most 300 ms later: none is overdue, none is set
    further ahead. *)
Theorem live_timer_due_window (sw sh pr : number) (w : World) :
  reachable sw sh pr w ->
  forall h due, In (h, due) (timers w) -> time w < due /\ due <= time w + 300.
Proof.
  intros Hreach.
  assert (Hd : due_inv w).
  { revert w Hreach. apply reachable_invariant; [constructor|].
    intros w e. apply step_due_inv. }
  intros h due Hin. unfold due_inv in Hd. rewrite List.Forall_forall in Hd.
  apply (Hd (h, due) Hin).
Qed.

Lemma live_timer_due_window_witness :
  let w := run 1080 2400 3
               [PressStart; CodeScanned [qrCode] portraitFrame tickingClock;
                Elapse 120; PressStop; Elapse 100]
               initial in
  time w = 220 /\ timers w = [(1%positive, 300)] /\ 220 < 300 /\ 300 <= 220 + 300.
Proof.
  pose (evs := [PressStart; CodeScanned [qrCode] portraitFrame tickingClock;
                Elapse 120; PressStop; Elapse 100]).
  split; [reflexivity|]. split; [reflexivity|].
  exact (live_timer_due_window 1080 2400 3 (run 1080 2400 3 evs initial)
           (ex_intro _ evs eq_refl) 1%positive 300 (or_introl eq_refl)).
Defined.

(** X6: the callback of a timeout runs at most once: in every reachable
    state no handle occurs twice in the log of callbacks that have run, and
    a timeout that is still live has not run. *)
Theorem callbacks_run_at_most_once (sw sh pr : number) (w : World) :
  reachable sw sh pr w ->
  NoDup (fired w) /\
  (forall h, firings h w <= 1) /\
  (forall h, In h (map fst (timers w)) -> firings h w = 0).
Proof.
  intros Hreach.
  assert (Ho : oneshot_inv w).
  { revert w Hreach. apply reachable_invariant.
    - split; [constructor | intros h []].
    - intros w e. apply step_oneshot_inv. }
  destruct Ho as [Hnd Hlive]. split; [exact Hnd|]. split.
  - intros h. unfold firings. apply NoDup_count_occ, NoDup_ListNoDup, Hnd.
  - intros h Hin. unfold firings. apply count_occ_not_In. apply Hlive, Hin.
Qed.

Lemma callbacks_run_at_most_once_witness :
  let w := run 1080 2400 3
               [PressStart; CodeScanned [qrCode] portraitFrame tickingClock;
                Elapse 300; CodeScanned [qrCode] portraitFrame tickingClock;
                Elapse 300; Elapse 300; CodeScanned [qrCode] portraitFrame tickingClock]
               initial in
  fired w = [1%positive; 2%positive] /\ NoDup (fired w) /\ firings 3 w = 0.
Proof.
  pose (evs := [PressStart; CodeScanned [qrCode] portraitFrame tickingClock;
                Elapse 300; CodeScanned [qrCode] portraitFrame tickingClock;
                Elapse 300; Elapse 300;
                CodeScanned [qrCode] portraitFrame tickingClock]).
  destruct (callbacks_run_at_most_once 1080 2400 3 (run 1080 2400 3 evs initial)
              (ex_intro _ evs eq_refl))
    as (Hnd & _ & Hlive).
  assert (Hin : In 3%positive (map fst (timers (run 1080 2400 3 evs initial))))
    by (vm_compute; left; reflexivity).
  split; [vm_compute; reflexivity|]. split; [exact Hnd | exact (Hlive 3%positive Hin)].
Defined.

(** ** Silence *)

(** Quiet events never put anything into the lists. *)
Lemma quiet_run_keeps_empty (sw sh pr : number) (quiet : list Event) (w : World) :
  wf w -> due_inv w -> Forall quietEvent quiet ->
  boxes w = [] -> uniqueCodes w = [] ->
  boxes (run sw sh pr quiet w) = [] /\ uniqueCodes (run sw sh pr quiet w) = [].
Proof.
  intros [Ht _] Hd Hq Hb Hu. destruct Ht as [He|(h & due & _ & Ht)].
  - destruct (quiet_run_no_timer sw sh pr quiet w Hq He) as (Hb' & Hu' & _).
    rewrite Hb', Hu'. split; assumption.
  - assert (Hlt : time w < due).
    { unfold due_inv in Hd. rewrite Ht in Hd. apply Forall_cons in Hd.
      destruct Hd as [[Hlt _] _]. exact Hlt. }
    destruct (quiet_run_one_timer sw sh pr quiet w h due Hq Ht Hlt)
      as (_ & Hearly & Hlate).
    destruct (Nat.lt_ge_cases (time w + elapsed quiet) due) as [Hcmp|Hcmp].
    + destruct (Hearly Hcmp) as (Hb' & Hu' & _). rewrite Hb', Hu'. split; assumption.
    + destruct (Hlate Hcmp) as (Hb' & Hu' & _). split; assumption.
Qed.

(** X7: as long as the effect cleanup has not run, boxes and uniqueCodes
    never outlive 300 ms without a frame: whatever happened before, scanning
    or stopped, once 300 ms of Start, Stop and waiting have passed both
    lists are empty. *)
Theorem lists_empty_after_300ms_of_silence
    (sw sh pr : number) (evs quiet : list Event) :
  Forall notCleanup evs -> Forall quietEvent quiet -> 300 <= elapsed quiet ->
  let w := run sw sh pr quiet (run sw sh pr evs initial) in
  boxes w = [] /\ uniqueCodes w = [].
Proof.
  intros Hevs Hq Hlong w. subst w.
  assert (Hwf : wf (run sw sh pr evs initial)) by apply run_wf, initial_wf.
  assert (Hinv : due_inv (run sw sh pr evs initial) /\
                 covered_inv (run sw sh pr evs initial)).
  { apply (run_invariant sw sh pr notCleanup
             (fun w => due_inv w /\ covered_inv w)).
    - intros w e He Hw [Hd Hc]. split;
        [apply step_due_inv | apply step_covered_inv]; assumption.
    - exact Hevs.
    - apply initial_wf.
    - split; [constructor | left; split; reflexivity]. }
  destruct Hinv as [Hd Hc]. destruct Hc as [[Hb Hu]|Hlive].
  - apply quiet_run_keeps_empty; assumption.
  - destruct Hwf as [[He|(h & due & _ & Ht)] _]; [contradiction|].
    unfold due_inv in Hd. rewrite Ht in Hd. apply Forall_cons in Hd.
    destruct Hd as [[Hlt Hle] _]. cbn in Hlt, Hle.
    destruct (quiet_run_one_timer sw sh pr quiet _ h due Hq Ht Hlt)
      as (_ & _ & Hlate).
    destruct Hlate as (Hb & Hu & _); [lia|]. split; assumption.
Qed.

Lemma lists_empty_after_300ms_of_silence_witness :
  let before := [PressStart; CodeScanned [qrCode; undecodedCode] portraitFrame tickingClock;
                 Elapse 10; PressStop] in
  let quiet := [Elapse 100; PressStart; Elapse 150; PressStop; Elapse 50] in
  boxes (run 1080 2400 3 before initial) <> [] /\
  boxes (run 1080 2400 3 quiet (run 1080 2400 3 before initial)) = [] /\
  uniqueCodes (run 1080 2400 3 quiet (run 1080 2400 3 before initial)) = [].
Proof.
  split; [vm_compute; discriminate|].
  apply (lists_empty_after_300ms_of_silence 1080 2400 3
           [PressStart; CodeScanned [qrCode; undecodedCode] portraitFrame tickingClock;
            Elapse 10; PressStop]
           [Elapse 100; PressStart; Elapse 150; PressStop; Elapse 50]).
  - repeat constructor.
  - repeat constructor.
  - cbn. lia.
Defined.

(** X8: the effect cleanup cancels the timeout and clears nothing: boxes and
    uniqueCodes are kept, and from then on no amount of Start, Stop and
    waiting changes them; they stay until the next frame is handled. *)
Theorem cleanup_keeps_lists (sw sh pr : number) (w : World) (quiet : list Event) :
  reachable sw sh pr w -> Forall quietEvent quiet ->
  let w' := run sw sh pr quiet (step sw sh pr w Cleanup) in
  boxes w' = boxes w /\ uniqueCodes w' = uniqueCodes w /\ timers w' = [] /\
  fired w' = fired w.
Proof.
  intros Hreach Hq w'. subst w'. cbn [step].
  destruct (reachable_wf sw sh pr w Hreach) as [Ht _].
  pose proof (clearPending_timers w Ht) as Hc.
  destruct (clearPending_rest w) as (_ & Hb & Hu & _ & _ & _ & Hf).
  destruct (quiet_run_no_timer sw sh pr quiet (clearPending w) Hq Hc)
    as (Hb' & Hu' & Ht' & Hf' & _).
  rewrite Hb', Hu', Ht', Hf', Hb, Hu, Hf. repeat split.
Qed.

Lemma cleanup_keeps_lists_witness :
  let w := run 1080 2400 3
               [PressStart; CodeScanned [qrCode] portraitFrame tickingClock; Elapse 100]
               initial in
  let w' := run 1080 2400 3 [Elapse 1000; PressStop; Elapse 1000]
                (step 1080 2400 3 w Cleanup) in
  length (boxes w) = 1 /\ boxes w' = boxes w /\ uniqueCodes w' = uniqueCodes w /\
  timers w' = [] /\ fired w' = fired w.
Proof.
  pose (evs := [PressStart; CodeScanned [qrCode] portraitFrame tickingClock; Elapse 100]).
  split; [vm_compute; reflexivity|].
  apply (cleanup_keeps_lists 1080 2400 3 (run 1080 2400 3 evs initial)
           [Elapse 1000; PressStop; Elapse 1000] (ex_intro _ evs eq_refl)).
  repeat constructor.
Defined.

(** ** The button *)

Lemma pressButton_twice (w : World) : pressButton (pressButton w) = w.
Proof. destruct w as [[|] b u r ts n t f]; reflexivity. Qed.

(** X2: the rendered button is a toggle: its handler is the step of the
    event it is rendered for, it flips isScanning and the title and touches
    nothing else, so two presses restore the state exactly and after n
    presses only the parity of n matters. *)
Theorem button_is_a_toggle (sw sh pr : number) (w : World) :
  pressButton w = step sw sh pr w (renderedButton w) /\
  isScanning (pressButton w) = negb (isScanning w) /\
  buttonTitle (pressButton w) <> buttonTitle w /\
  pressButton (pressButton w) = w /\
  forall n,
    let w' := Nat.iter n pressButton w in
    isScanning w' = (if Nat.even n then isScanning w else negb (isScanning w)) /\
    boxes w' = boxes w /\ uniqueCodes w' = uniqueCodes w /\
    timers w' = timers w /\ timerRef w' = timerRef w /\ fired w' = fired w.
Proof.
  split; [unfold pressButton, renderedButton; destruct (isScanning w); reflexivity|].
  split; [unfold pressButton, renderedButton; destruct (isScanning w); reflexivity|].
  split; [unfold buttonTitle, pressButton, renderedButton;
          destruct (isScanning w); cbn; discriminate|].
  split; [apply pressButton_twice|].
  intros n. cbv zeta. induction n as [n IH] using (well_founded_induction lt_wf).
  destruct n as [|[|n]].
  - repeat split.
  - cbn. unfold pressButton, renderedButton. destruct (isScanning w); repeat split.
  - change (Nat.iter (S (S n)) pressButton w)
      with (pressButton (pressButton (Nat.iter n pressButton w))).
    rewrite pressButton_twice. change (Nat.even (S (S n))) with (Nat.even n).
    apply IH. lia.
Qed.

(** ** Frames without extent *)

Lemma not_finite_of_spec (v : number) :
  Prim2SF v = S754_nan \/ (exists s, Prim2SF v = S754_infinity s) ->
  PrimFloat.is_finite v = false.
Proof.
  intros Hv. unfold PrimFloat.is_finite, PrimFloat.is_nan, PrimFloat.is_infinity.
  rewrite !FloatAxioms.eqb_spec, abs_spec.
  destruct Hv as [-> | [s ->]]; [reflexivity|].
  replace (Prim2SF PrimFloat.infinity) with (S754_infinity false) by reflexivity.
  destruct s; reflexivity.
Qed.

Lemma zero_of_is_zero (d : number) :
  PrimFloat.is_zero d = true -> exists s, Prim2SF d = S754_zero s.
Proof.
  unfold PrimFloat.is_zero. rewrite FloatAxioms.eqb_spec.
  replace (Prim2SF PrimFloat.zero) with (S754_zero false) by reflexivity.
  destruct (Prim2SF d) as [s|s| |s m e]; cbn.
  - intros _. exists s. reflexivity.
  - destruct s; discriminate.
  - discriminate.
  - destruct s; discriminate.
Qed.

(** Dividing by a zero gives NaN or an infinity. *)
Lemma div_by_zero_spec (v d : number) :
  PrimFloat.is_zero d = true ->
  Prim2SF (v / d) = S754_nan \/ (exists s, Prim2SF (v / d) = S754_infinity s).
Proof.
  intros Hd. destruct (zero_of_is_zero d Hd) as [sd Hsd].
  rewrite div_spec, Hsd. unfold SF64div, SFdiv.
  destruct (Prim2SF v) as [s|s| |s m e]; eauto.
Qed.

(** Dividing NaN or an infinity gives NaN or an infinity again. *)
Lemma div_of_not_finite_spec (u d : number) :
  Prim2SF u = S754_nan \/ (exists s, Prim2SF u = S754_infinity s) ->
  Prim2SF (u / d) = S754_nan \/ (exists s, Prim2SF (u / d) = S754_infinity s).
Proof.
  intros Hu. rewrite div_spec. unfold SF64div, SFdiv.
  destruct Hu as [-> | [s ->]]; [left; reflexivity|].
  destruct (Prim2SF d) as [sd|sd| |sd m e]; eauto.
Qed.

(** X9: a frame whose height is zero (0 or -0) is not rejected: for every
    code the box gets an x and a width that are not finite (NaN or an
    infinity), and so does every point{i}x of its corners; a frame whose
    width is zero does the same to y, height and every point{i}y. *)
Theorem zero_frame_gives_non_finite_boxes
    (sw sh pr : number) (codes : list Code.t) (frame : Frame.t)
    (now : nat -> number) (w : World) (n : nat) (code : Code.t) :
  isScanning w = true ->
  codes !! n = Some code ->
  exists box : Box.t,
    boxes (onCodeScanned sw sh pr codes frame now w) !! n = Some box /\
    (PrimFloat.is_zero (Frame.height frame) = true ->
     PrimFloat.is_finite (Box.x box) = false /\
     PrimFloat.is_finite (Box.width box) = false /\
     forall i corner, Code.corners code !! i = Some corner ->
       exists v, Box.corners box !! pointKey i "x" = Some v /\
                 PrimFloat.is_finite v = false) /\
    (PrimFloat.is_zero (Frame.width frame) = true ->
     PrimFloat.is_finite (Box.y box) = false /\
     PrimFloat.is_finite (Box.height box) = false /\
     forall i corner, Code.corners code !! i = Some corner ->
       exists v, Box.corners box !! pointKey i "y" = Some v /\
                 PrimFloat.is_finite v = false).
Proof.
  intros Hs Hn. exists (boxOf sw sh pr frame code). split.
  - rewrite boxes_after_frame by exact Hs. unfold newBoxes.
    rewrite list_lookup_fmap, Hn. reflexivity.
  - split; intros Hz; cbn [boxOf Box.x Box.y Box.width Box.height Box.corners].
    + split; [|split].
      * apply not_finite_of_spec, div_of_not_finite_spec, div_by_zero_spec, Hz.
      * apply not_finite_of_spec, div_of_not_finite_spec, div_by_zero_spec, Hz.
      * intros i corner Hi.
        destruct (cornersOf_lookup sw sh frame _ i corner Hi) as [Hx _].
        eexists. split; [exact Hx|].
        apply not_finite_of_spec, div_by_zero_spec, Hz.
    + split; [|split].
      * apply not_finite_of_spec, div_of_not_finite_spec, div_by_zero_spec, Hz.
      * apply not_finite_of_spec, div_of_not_finite_spec, div_by_zero_spec, Hz.
      * intros i corner Hi.
        destruct (cornersOf_lookup sw sh frame _ i corner Hi) as [_ Hy].
        eexists. split; [exact Hy|].
        apply not_finite_of_spec, div_by_zero_spec, Hz.
Qed.

Lemma zero_frame_gives_non_finite_boxes_witness :
  (exists box : Box.t,
     boxes (onCodeScanned 1080 2400 3 [qrCode] flatFrame tickingClock started) !! 0
     = Some box /\
     Box.x box = PrimFloat.infinity /\ PrimFloat.is_finite (Box.x box) = false /\
     PrimFloat.is_finite (Box.width box) = false) /\
  (exists box : Box.t,
     boxes (onCodeScanned 1080 2400 3 [qrCode] thinFrame tickingClock started) !! 0
     = Some box /\
     PrimFloat.is_finite (Box.y box) = false /\
     PrimFloat.is_finite (Box.height box) = false).
Proof.
  split.
  - destruct (zero_frame_gives_non_finite_boxes 1080 2400 3 [qrCode] flatFrame
                tickingClock started 0 qrCode eq_refl eq_refl)
      as (box & Hbox & Hflat & _).
    exists box. split; [exact Hbox|].
    destruct (Hflat eq_refl) as (Hx & Hw & _).
    split; [|split; assumption].
    vm_compute in Hbox. injection Hbox as <-. reflexivity.
  - destruct (zero_frame_gives_non_finite_boxes 1080 2400 3 [qrCode] thinFrame
                tickingClock started 0 qrCode eq_refl eq_refl)
      as (box & Hbox & _ & Hthin).
    exists box. split; [exact Hbox|].
    destruct (Hthin eq_refl) as (Hy & Hh & _). split; assumption.
Defined.

(** ** Streams of frames *)

Lemma dense_stream_keeps_boxes (sw sh pr : number) (ds : list Detection) :
  Forall dense ds ->
  forall (w0 : World) (h : positive),
    wf w0 -> isScanning w0 = true -> boxes w0 <> [] ->
    timers w0 = [(h, time w0 + 300)] ->
    forall p, p `prefix_of` stream ds ->
      boxes (run sw sh pr p w0) <> [] /\ fired (run sw sh pr p w0) = fired w0.
Proof.
  induction ds as [|d ds IH]; intros Hds w0 h Hwf Hs Hb Ht p Hp.
  - apply prefix_nil_inv in Hp. subst p. split; [exact Hb | reflexivity].
  - apply Forall_cons in Hds. destruct Hds as [[Hgap Hcodes] Hds].
    change (stream (d :: ds))
      with (Elapse (gap d)
            :: CodeScanned (detected d) (detectedFrame d) (detectedNow d) :: stream ds) in Hp.
    destruct p as [|e1 p]; [split; [exact Hb | reflexivity]|].
    pose proof (prefix_cons_inv_1 _ _ _ _ Hp) as ->.
    apply prefix_cons_inv_2 in Hp.
    change (run sw sh pr (Elapse (gap d) :: p) w0)
      with (run sw sh pr p (step sw sh pr w0 (Elapse (gap d)))).
    pose proof (step_wf sw sh pr w0 (Elapse (gap d)) Hwf) as Hwf1.
    set (w1 := step sw sh pr w0 (Elapse (gap d))) in *.
    assert (Hw1 : w1 = mkWorld (isScanning w0) (boxes w0) (uniqueCodes w0) (timerRef w0)
                               [(h, time w0 + 300)] (nextHandle w0)
                               (time w0 + gap d) (fired w0)).
    { subst w1. cbn [step]. rewrite (elapse_one_timer (gap d) w0 h (time w0 + 300) Ht).
      destruct (Nat.leb_spec (time w0 + 300) (time w0 + gap d)); [lia | reflexivity]. }
    clearbody w1.
    destruct p as [|e2 p]; [rewrite Hw1; split; [exact Hb | reflexivity]|].
    pose proof (prefix_cons_inv_1 _ _ _ _ Hp) as ->.
    apply prefix_cons_inv_2 in Hp.
    change (run sw sh pr
                (CodeScanned (detected d) (detectedFrame d) (detectedNow d) :: p) w1)
      with (run sw sh pr p
                (onCodeScanned sw sh pr (detected d) (detectedFrame d) (detectedNow d) w1)).
    assert (Hs1 : isScanning w1 = true) by (rewrite Hw1; exact Hs).
    pose proof (step_wf sw sh pr w1
                  (CodeScanned (detected d) (detectedFrame d) (detectedNow d)) Hwf1) as Hwf2.
    cbn [step] in Hwf2.
    pose proof (clearPending_timers w1 (proj1 Hwf1)) as Hc.
    destruct (clearPending_rest w1) as (Hsc & _ & _ & _ & Hn & Htime & Hfd).
    set (w2 := onCodeScanned sw sh pr (detected d) (detectedFrame d) (detectedNow d) w1) in *.
    assert (Hw2 : isScanning w2 = true /\ boxes w2 <> [] /\
                  timers w2 = [(nextHandle w1, time w2 + 300)] /\ fired w2 = fired w0).
    { subst w2. rewrite onCodeScanned_codes by assumption. cbn.
      rewrite Hc, Hsc, Hn, Htime, Hfd, Hw1. cbn. repeat split; try assumption.
      unfold newBoxes. destruct (detected d); [congruence | discriminate]. }
    clearbody w2. destruct Hw2 as (Hs2 & Hb2 & Ht2 & Hf2).
    destruct (IH Hds w2 (nextHandle w1) Hwf2 Hs2 Hb2 Ht2 p Hp) as [Hbp Hfp].
    split; [exact Hbp | rewrite Hfp; exact Hf2].
Qed.

(** X10: a stream of frames with codes that follow one another by less than
    300 ms never blinks: started by a frame with codes handled while
    scanning, at every point of the stream (between two frames and after
    each of them) boxes is not empty and no clear callback has run. *)
Theorem dense_frames_never_blink
    (sw sh pr : number) (codes : list Code.t) (frame : Frame.t)
    (now : nat -> number) (w : World) (ds : list Detection) :
  reachable sw sh pr w -> isScanning w = true -> codes <> [] ->
  Forall dense ds ->
  let w0 := step sw sh pr w (CodeScanned codes frame now) in
  forall p, p `prefix_of` stream ds ->
    boxes (run sw sh pr p w0) <> [] /\ fired (run sw sh pr p w0) = fired w.
Proof.
  intros Hreach Hs Hne Hds w0 p Hp.
  pose proof (reachable_wf sw sh pr w Hreach) as Hwf.
  pose proof (step_wf sw sh pr w (CodeScanned codes frame now) Hwf) as Hwf0.
  fold w0 in Hwf0.
  pose proof (clearPending_timers w (proj1 Hwf)) as Hc.
  destruct (clearPending_rest w) as (Hsc & _ & _ & _ & Hn & Htime & Hfd).
  assert (Hw0 : isScanning w0 = true /\ boxes w0 <> [] /\
                timers w0 = [(nextHandle w, time w0 + 300)] /\ fired w0 = fired w).
  { subst w0. cbn [step]. rewrite onCodeScanned_codes by assumption. cbn.
    rewrite Hc, Hsc, Hn, Htime, Hfd. repeat split; try assumption.
    unfold newBoxes. destruct codes; [congruence | discriminate]. }
  clearbody w0. destruct Hw0 as (Hs0 & Hb0 & Ht0 & Hf0).
  destruct (dense_stream_keeps_boxes sw sh pr ds Hds w0 (nextHandle w)
              Hwf0 Hs0 Hb0 Ht0 p Hp) as [Hb Hf].
  split; [exact Hb | rewrite Hf; exact Hf0].
Qed.

Lemma dense_frames_never_blink_witness :
  let ds := [mkDetection 299 [qrCode] portraitFrame tickingClock;
             mkDetection 120 [undecodedCode] portraitFrame frozenClock;
             mkDetection 299 [qrCode; qrCode] portraitFrame tickingClock] in
  let w0 := step 1080 2400 3 started (CodeScanned [qrCode] portraitFrame frozenClock) in
  length (boxes (run 1080 2400 3 (stream ds) w0)) = 2 /\
  time (run 1080 2400 3 (stream ds) w0) = 718 /\
  boxes (run 1080 2400 3 (stream ds) w0) <> [] /\
  fired (run 1080 2400 3 (stream ds) w0) = [].
Proof.
  split; [vm_compute; reflexivity|]. split; [vm_compute; reflexivity|].
  apply (dense_frames_never_blink 1080 2400 3 [qrCode] portraitFrame frozenClock started
           [mkDetection 299 [qrCode] portraitFrame tickingClock;
            mkDetection 120 [undecodedCode] portraitFrame frozenClock;
            mkDetection 299 [qrCode; qrCode] portraitFrame tickingClock]
           (ex_intro _ [PressStart] eq_refl) eq_refl).
  - discriminate.
  - repeat constructor; cbn; (lia || discriminate).
  - reflexivity.
Defined.

(** ** While scanning is stopped *)

Lemma stopped_step (sw sh pr : number) (w0 w : World) (e : Event) :
  notStart e -> wf w ->
  isScanning w = false /\
  ((boxes w = boxes w0 /\ uniqueCodes w = uniqueCodes w0) \/
   (boxes w = [] /\ uniqueCodes w = [])) ->
  isScanning (step sw sh pr w e) = false /\
  ((boxes (step sw sh pr w e) = boxes w0 /\
    uniqueCodes (step sw sh pr w e) = uniqueCodes w0) \/
   (boxes (step sw sh pr w e) = [] /\ uniqueCodes (step sw sh pr w e) = [])).
Proof.
  intros He [Ht _] [Hs Hlists].
  destruct e as [| |codes frame now|ms|]; cbn [step].
  - contradiction.
  - split; [reflexivity | exact Hlists].
  - rewrite onCodeScanned_idle by exact Hs. split; assumption.
  - destruct Ht as [Hnone|(h & due & _ & Hone)].
    + rewrite elapse_no_timer by exact Hnone. split; [exact Hs | exact Hlists].
    + rewrite (elapse_one_timer ms w h due Hone).
      destruct (due <=? time w + ms)%nat; cbn; split;
        solve [exact Hs | exact Hlists | right; split; reflexivity].
  - destruct (clearPending_rest w) as (-> & -> & -> & _). split; assumption.
Qed.

(** X11: while scanning is stopped nothing new reaches the lists: from a
    reachable state with isScanning false, whatever frames arrive, however
    much time passes and whether or not the cleanup runs, as long as Start
    is not pressed isScanning stays false and boxes and uniqueCodes are
    either what they were or empty. *)
Theorem stopped_session_shows_nothing_new
    (sw sh pr : number) (w : World) (evs : list Event) :
  reachable sw sh pr w -> isScanning w = false -> Forall notStart evs ->
  let w' := run sw sh pr evs w in
  isScanning w' = false /\
  ((boxes w' = boxes w /\ uniqueCodes w' = uniqueCodes w) \/
   (boxes w' = [] /\ uniqueCodes w' = [])).
Proof.
  intros Hreach Hs Hevs w'. subst w'.
  apply (run_invariant sw sh pr notStart
           (fun v => isScanning v = false /\
                     ((boxes v = boxes w /\ uniqueCodes v = uniqueCodes w) \/
                      (boxes v = [] /\ uniqueCodes v = [])))).
  - intros v e He Hv HP. apply stopped_step; assumption.
  - exact Hevs.
  - apply (reachable_wf sw sh pr w Hreach).
  - split; [exact Hs | left; split; reflexivity].
Qed.

Lemma stopped_session_shows_nothing_new_witness :
  let w := run 1080 2400 3
               [PressStart; CodeScanned [qrCode] portraitFrame tickingClock;
                Elapse 50; PressStop]
               initial in
  let w' := run 1080 2400 3
                [CodeScanned [undecodedCode; undecodedCode] portraitFrame frozenClock;
                 Elapse 100; CodeScanned [] portraitFrame frozenClock; Elapse 100]
                w in
  isScanning w' = false /\ boxes w' = boxes w /\ length (boxes w') = 1.
Proof.
  pose (before := [PressStart; CodeScanned [qrCode] portraitFrame tickingClock;
                   Elapse 50; PressStop]).
  pose (after := [CodeScanned [undecodedCode; undecodedCode] portraitFrame frozenClock;
                  Elapse 100; CodeScanned [] portraitFrame frozenClock; Elapse 100]).
  destruct (stopped_session_shows_nothing_new 1080 2400 3
              (run 1080 2400 3 before initial) after
              (ex_intro _ before eq_refl) eq_refl ltac:(repeat constructor))
    as [Hs _].
  split; [exact Hs|]. split; vm_compute; reflexivity.
Defined.
